(** * gatsby-source-git-as-filesystem: the repository synchroniser

    A shallow embedding of [src/gatsby-node.ts]: [isAlreadyCloned],
    [getTargetBranch], [getRepo] and [sourceNodes], run against an
    abstract version-control client, filesystem and build host.

    JavaScript strings are sequences of UTF-16 code units; they are
    modelled as lists of code units so that [String.prototype.trim] can
    be written with the exact white-space set of the language. *)

From Stdlib Require Import String Ascii.
From stdpp Require Import base numbers list option gmap.

(** ** JavaScript strings *)

Module JsString.

Local Open Scope N_scope.

Abbreviation jsstring := (list N).

(** A source literal, one code unit per ASCII character. *)
Fixpoint js (s : string) : jsstring :=
  match s with
  | EmptyString => []
  | String a rest => N_of_ascii a :: js rest
  end.
Arguments js _ : simpl never.

(** [WhiteSpace] and [LineTerminator] of ECMAScript: what [trim] strips. *)
Definition isWhiteSpace (c : N) : bool :=
  (c =? 0x09) || (c =? 0x0A) || (c =? 0x0B) || (c =? 0x0C) || (c =? 0x0D)
  || (c =? 0x20) || (c =? 0xA0) || (c =? 0x1680)
  || ((0x2000 <=? c) && (c <=? 0x200A))
  || (c =? 0x2028) || (c =? 0x2029) || (c =? 0x202F) || (c =? 0x205F)
  || (c =? 0x3000) || (c =? 0xFEFF).

Fixpoint trimStart (s : jsstring) : jsstring :=
  match s with
  | [] => []
  | c :: rest => if isWhiteSpace c then trimStart rest else s
  end.

Definition trimEnd (s : jsstring) : jsstring := rev (trimStart (rev s)).

(** [s.trim()] *)
Definition trim (s : jsstring) : jsstring := trimEnd (trimStart s).

(** [a == b] on two strings: code unit by code unit. *)
Definition str_eq (a b : jsstring) : bool := bool_decide (a = b).

Definition blank (w : jsstring) : Prop := Forall (λ c, isWhiteSpace c = true) w.

(** The line feed that ends a line of command output. *)
Definition LF : N := 0x0A.

End JsString.
Export JsString.

(** ** Values, errors and promises *)

(** Plain JavaScript values; an object is a finite map from property
    names to values. *)
#[local] Unset Elimination Schemes.
Inductive JsVal :=
| VUndefined
| VNull
| VBool (b : bool)
| VStr (s : jsstring)
| VArr (items : list JsVal)
| VObj (props : gmap jsstring JsVal).
#[local] Set Elimination Schemes.

Abbreviation JsObject := (gmap jsstring JsVal).

(** What a rejected promise carries: either the error a collaborator
    failed with, passed on as it is, or [new Error(message)] made by
    this module. *)
Inductive JsError (Cause : Type) :=
| Raised (cause : Cause)
| NewError (message : jsstring).
Arguments Raised {Cause} cause.
Arguments NewError {Cause} message.

Inductive Outcome (E A : Type) :=
| Fulfilled (value : A)
| Rejected (reason : E).
Arguments Fulfilled {E A} value.
Arguments Rejected {E A} reason.

(** The cause a settled call failed with, if it failed. *)
Definition failureOf {E A} (o : Outcome E A) : option E :=
  match o with Fulfilled _ => None | Rejected e => Some e end.

(** A collaborator's outcome as the awaiting code sees it: the cause of
    a failure is passed on untouched. *)
Definition passOn {Cause A} (o : Outcome Cause A) : Outcome (JsError Cause) A :=
  match o with
  | Fulfilled a => Fulfilled a
  | Rejected cause => Rejected (Raised cause)
  end.

(** The same settlement with another value. *)
Definition thenValue {E A B} (o : Outcome E A) (b : B) : Outcome E B :=
  match o with
  | Fulfilled _ => Fulfilled b
  | Rejected e => Rejected e
  end.

(** The handle [git(baseDir)]. *)
Record SimpleGit := git { baseDir : jsstring }.

(** ** Collaborators *)

(** The filesystem and the version-control client, over a world [W]
    that holds the disk, the network and the remotes. A query reads the
    world; [clone], [fetch], [reset] and [raw] may change it, also when
    they fail. *)
Class Client (W Cause : Type) := {
  existsSync : jsstring → W → bool;
  readdirSync : jsstring → W → Outcome Cause (list jsstring);
  listRemote : SimpleGit → list jsstring → W → Outcome Cause jsstring;
  clone : jsstring → jsstring → list jsstring → W → Outcome Cause unit * W;
  fetch : SimpleGit → list jsstring → W → Outcome Cause unit * W;
  reset : SimpleGit → list jsstring → W → Outcome Cause unit * W;
  raw : SimpleGit → list jsstring → W → Outcome Cause jsstring * W;
}.

(** Calls that leave this module, in the order they are issued. *)
Inductive Call :=
| CallExistsSync (path : jsstring)
| CallReaddirSync (path : jsstring)
| CallListRemote (repo : SimpleGit) (args : list jsstring)
| CallClone (remote dest : jsstring) (opts : list jsstring)
| CallFetch (repo : SimpleGit) (opts : list jsstring)
| CallReset (repo : SimpleGit) (opts : list jsstring)
| CallRaw (repo : SimpleGit) (args : list jsstring)
| CallFastGlob (patterns cwd : jsstring) (absolute : bool)
| CallCreateFileNode (path : jsstring) (pluginOptions : JsObject)
| CallCreateNode (node : JsObject) (plugin : option JsObject)
| CallReporterError (message : jsstring).

(** A settled call: what was asked, and the cause if it failed. *)
Record Event (Cause : Type) := mkEvent { call : Call; failure : option Cause }.
Arguments mkEvent {Cause} call failure.
Arguments call {Cause} _.
Arguments failure {Cause} _.

(** The calls that write under the checkout. *)
Definition mutating (c : Call) : bool :=
  match c with
  | CallClone _ _ _ | CallFetch _ _ | CallReset _ _ => true
  | _ => false
  end.

Definition mutations {Cause} (journal : list (Event Cause)) : list (Event Cause) :=
  List.filter (λ e, mutating (call e)) journal.

(** The calls that add to the node graph. *)
Definition creating (c : Call) : bool :=
  match c with
  | CallCreateFileNode _ _ | CallCreateNode _ _ => true
  | _ => false
  end.

Definition creations {Cause} (journal : list (Event Cause)) : list (Event Cause) :=
  List.filter (λ e, creating (call e)) journal.

(** The three queries that open every run over a populated path. *)
Definition detection {Cause} (cachePath : jsstring) (answered : option Cause)
  : list (Event Cause) :=
  [mkEvent (CallExistsSync cachePath) None;
   mkEvent (CallReaddirSync cachePath) None;
   mkEvent (CallListRemote (git cachePath) [js "--get-url"]) answered].

(** ** Asynchronous computations *)

Record Run (W Cause : Type) := mkRun { world : W; journal : list (Event Cause) }.
Arguments mkRun {W Cause} world journal.
Arguments world {W Cause} _.
Arguments journal {W Cause} _.

(** An [async] body, awaited to its end: from the world and the journal
    so far to a settled promise and the world and journal after. *)
Definition Async (W Cause A : Type) : Type :=
  Run W Cause → Outcome (JsError Cause) A * Run W Cause.

Section Async.
Context {W Cause : Type}.

Definition async_ret {A} (a : A) : Async W Cause A := λ r, (Fulfilled a, r).

(** [await m] followed by [k]; a rejection of [m] skips [k]. *)
Definition async_bind {A B} (k : A → Async W Cause B) (m : Async W Cause A)
  : Async W Cause B :=
  λ r, match m r with
       | (Fulfilled a, r') => k a r'
       | (Rejected e, r') => (Rejected e, r')
       end.

Definition throw {A} (e : JsError Cause) : Async W Cause A :=
  λ r, (Rejected e, r).

(** [try { body } catch (e) { handler e }] *)
Definition tryCatch {A} (body : Async W Cause A)
    (handler : JsError Cause → Async W Cause A) : Async W Cause A :=
  λ r, match body r with
       | (Fulfilled a, r') => (Fulfilled a, r')
       | (Rejected e, r') => handler e r'
       end.

(** Issue [c] to a collaborator and enter it in the journal. *)
Definition perform {A} (c : Call) (f : W → Outcome Cause A * W)
  : Async W Cause A :=
  λ r, let '(o, w') := f (world r) in
       (passOn o, mkRun w' (journal r ++ [mkEvent c (failureOf o)])).

Definition inquire {A} (c : Call) (f : W → Outcome Cause A) : Async W Cause A :=
  perform c (λ w, (f w, w)).
End Async.

#[global] Instance Async_ret {W Cause} : MRet (Async W Cause) := @async_ret W Cause.
#[global] Instance Async_bind {W Cause} : MBind (Async W Cause) := @async_bind W Cause.

(** ** The synchroniser: [isAlreadyCloned], [getTargetBranch], [getRepo] *)

Section Synchroniser.
Context {W Cause : Type} `{!Client W Cause}.

Definition fs_existsSync (path : jsstring) : Async W Cause bool :=
  inquire (CallExistsSync path) (λ w, Fulfilled (existsSync path w)).

Definition fs_readdirSync (path : jsstring) : Async W Cause (list jsstring) :=
  inquire (CallReaddirSync path) (readdirSync path).

Definition git_listRemote (repo : SimpleGit) (args : list jsstring)
  : Async W Cause jsstring :=
  inquire (CallListRemote repo args) (listRemote repo args).

Definition git_clone (remote dest : jsstring) (opts : list jsstring)
  : Async W Cause unit :=
  perform (CallClone remote dest opts) (clone remote dest opts).

Definition git_fetch (repo : SimpleGit) (opts : list jsstring) : Async W Cause unit :=
  perform (CallFetch repo opts) (fetch repo opts).

Definition git_reset (repo : SimpleGit) (opts : list jsstring) : Async W Cause unit :=
  perform (CallReset repo opts) (reset repo opts).

Definition git_raw (repo : SimpleGit) (args : list jsstring) : Async W Cause jsstring :=
  perform (CallRaw repo args) (raw repo args).

(** [existingRemote.trim() == remote.trim()] *)
Definition isAlreadyCloned (remote repoPath : jsstring) : Async W Cause bool :=
  existingRemote ← git_listRemote (git repoPath) [js "--get-url"];
  mret (str_eq (trim existingRemote) (trim remote)).

(** A [branch] left out of the plugin options reaches the code as
    [undefined], here [None]; a template literal prints it as the
    nine letters of that word. *)
Definition interpolate (v : option jsstring) : jsstring :=
  match v with
  | Some text => text
  | None => js "undefined"
  end.

Definition getTargetBranch (branch : option jsstring) : Async W Cause jsstring :=
  mret (js "origin/" ++ interpolate branch).

(** The options of the clone: [opts.push] only under
    [typeof branch == `string`]. *)
Definition cloneOpts (branch : option jsstring) : list jsstring :=
  let opts := [js "--depth"; js "1"] in
  match branch with
  | Some b => opts ++ [js "--branch"; b]
  | None => opts
  end.

Definition conflictMessage (cachePath : jsstring) : jsstring :=
  js "Can't clone to target destination: " ++ cachePath.

Definition getRepo (cachePath remote : jsstring) (branch : option jsstring)
  : Async W Cause SimpleGit :=
  present ← fs_existsSync cachePath;
  vacant ← (if negb present then mret true
            else entries ← fs_readdirSync cachePath;
                 mret (length entries =? 0)%nat);
  if (vacant : bool) then
    git_clone remote cachePath (cloneOpts branch);;
    mret (git cachePath)
  else
    cloned ← isAlreadyCloned remote cachePath;
    if (cloned : bool) then
      let repo := git cachePath in
      target ← getTargetBranch branch;
      git_fetch repo [js "--depth"; js "1"];;
      git_reset repo [js "--hard"; target];;
      mret repo
    else
      throw (NewError (conflictMessage cachePath)).

(** The error of the last branch: the path is taken by a checkout of
    another remote. *)
Definition ConfigurationConflict (cachePath : jsstring) : JsError Cause :=
  NewError (conflictMessage cachePath).

Definition fetchOpts : list jsstring := [js "--depth"; js "1"].

Definition resetOpts (branch : option jsstring) : list jsstring :=
  [js "--hard"; js "origin/" ++ interpolate branch].

(** The runs of [getRepo] from a world [w], path by path: the outcome,
    the world left behind and the calls issued, in order. *)
Inductive Sync (cachePath remote : jsstring) (branch : option jsstring) (w : W)
  : Outcome (JsError Cause) SimpleGit → W → list (Event Cause) → Prop :=
| SyncAbsent o w' :
    existsSync cachePath w = false →
    clone remote cachePath (cloneOpts branch) w = (o, w') →
    Sync cachePath remote branch w (thenValue (passOn o) (git cachePath)) w'
      [mkEvent (CallExistsSync cachePath) None;
       mkEvent (CallClone remote cachePath (cloneOpts branch)) (failureOf o)]
| SyncUnreadable cause :
    existsSync cachePath w = true →
    readdirSync cachePath w = Rejected cause →
    Sync cachePath remote branch w (Rejected (Raised cause)) w
      [mkEvent (CallExistsSync cachePath) None;
       mkEvent (CallReaddirSync cachePath) (Some cause)]
| SyncEmpty o w' :
    existsSync cachePath w = true →
    readdirSync cachePath w = Fulfilled [] →
    clone remote cachePath (cloneOpts branch) w = (o, w') →
    Sync cachePath remote branch w (thenValue (passOn o) (git cachePath)) w'
      [mkEvent (CallExistsSync cachePath) None;
       mkEvent (CallReaddirSync cachePath) None;
       mkEvent (CallClone remote cachePath (cloneOpts branch)) (failureOf o)]
| SyncUnqueried entry entries cause :
    existsSync cachePath w = true →
    readdirSync cachePath w = Fulfilled (entry :: entries) →
    listRemote (git cachePath) [js "--get-url"] w = Rejected cause →
    Sync cachePath remote branch w (Rejected (Raised cause)) w
      (detection cachePath (Some cause))
| SyncMismatch entry entries url :
    existsSync cachePath w = true →
    readdirSync cachePath w = Fulfilled (entry :: entries) →
    listRemote (git cachePath) [js "--get-url"] w = Fulfilled url →
    trim url ≠ trim remote →
    Sync cachePath remote branch w (Rejected (ConfigurationConflict cachePath)) w
      (detection cachePath None)
| SyncFetchFailed entry entries url cause w1 :
    existsSync cachePath w = true →
    readdirSync cachePath w = Fulfilled (entry :: entries) →
    listRemote (git cachePath) [js "--get-url"] w = Fulfilled url →
    trim url = trim remote →
    fetch (git cachePath) fetchOpts w = (Rejected cause, w1) →
    Sync cachePath remote branch w (Rejected (Raised cause)) w1
      (detection cachePath None ++
       [mkEvent (CallFetch (git cachePath) fetchOpts) (Some cause)])
| SyncFetched entry entries url w1 o w2 :
    existsSync cachePath w = true →
    readdirSync cachePath w = Fulfilled (entry :: entries) →
    listRemote (git cachePath) [js "--get-url"] w = Fulfilled url →
    trim url = trim remote →
    fetch (git cachePath) fetchOpts w = (Fulfilled tt, w1) →
    reset (git cachePath) (resetOpts branch) w1 = (o, w2) →
    Sync cachePath remote branch w (thenValue (passOn o) (git cachePath)) w2
      (detection cachePath None ++
       [mkEvent (CallFetch (git cachePath) fetchOpts) None;
        mkEvent (CallReset (git cachePath) (resetOpts branch)) (failureOf o)]).
End Synchroniser.

(** ** The lifecycle hook: [sourceNodes] *)

(** What the build host and the other libraries provide. *)
Class Host (W Cause : Type) := {
  programDirectory : W → jsstring;
  path_join : list jsstring → jsstring;
  gitUrlParse : jsstring → Outcome Cause JsObject;
  JSON_stringify : JsObject → jsstring;
  describe : Cause → jsstring;
  fastGlob : jsstring → jsstring → bool → W → Outcome Cause (list jsstring) * W;
  createNodeId : jsstring → jsstring;
  createContentDigest : JsObject → jsstring;
  createFileNode : jsstring → JsObject → W → Outcome Cause JsObject * W;
  createNode : JsObject → option JsObject → W → Outcome Cause unit * W;
  reporter_error : jsstring → W → W;
}.

Record PluginOptions := {
  name : jsstring;
  remote : jsstring;
  branch : option jsstring;
  patterns : option jsstring;
  local : option jsstring;
}.

Section SourceNodes.
Context {W Cause : Type} `{!Client W Cause, !Host W Cause}.

(** The [debug] logger writes to the console only. *)
Definition log (text : jsstring) : Async W Cause unit := mret tt.

(** A synchronous call that may throw. *)
Definition attempt {A} (o : Outcome Cause A) : Async W Cause A :=
  λ r, (passOn o, r).

(** [`${e}`] on a caught value. *)
Definition toString (e : JsError Cause) : jsstring :=
  match e with
  | Raised cause => describe cause
  | NewError [] => js "Error"
  | NewError message => js "Error: " ++ message
  end.

(** [local || fallback]: the empty string is falsy too. *)
Definition orElse (v : option jsstring) (fallback : jsstring) : jsstring :=
  match v with
  | Some (c :: rest) => c :: rest
  | _ => fallback
  end.

Definition host_fastGlob (pats cwd : jsstring) (absolute : bool)
  : Async W Cause (list jsstring) :=
  perform (CallFastGlob pats cwd absolute) (fastGlob pats cwd absolute).

Definition host_createFileNode (path : jsstring) (pluginOptions : JsObject)
  : Async W Cause JsObject :=
  perform (CallCreateFileNode path pluginOptions) (createFileNode path pluginOptions).

Definition host_createNode (node : JsObject) (plugin : option JsObject)
  : Async W Cause unit :=
  perform (CallCreateNode node plugin) (createNode node plugin).

(** [reporter.error(new Error(message))] *)
Definition reporter_error_new (message : jsstring) : Async W Cause unit :=
  perform (CallReporterError message)
          (λ w, (Fulfilled tt, reporter_error message w)).

(** [for (const filePath of repoFiles) { ... }] *)
Fixpoint forOf (items : list jsstring) (body : jsstring → Async W Cause unit)
  : Async W Cause unit :=
  match items with
  | [] => mret tt
  | item :: rest => body item;; forOf rest body
  end.

Definition remoteNode (o : PluginOptions) (remoteId : jsstring)
    (parsedRemote : JsObject) : JsObject :=
  parsedRemote ∪
  <[js "id" := VStr remoteId]>
  (<[js "sourceInstanceName" := VStr (name o)]>
  (<[js "parent" := VNull]>
  (<[js "children" := VArr []]>
  {[js "internal" :=
      VObj (<[js "type" := VStr (js "GitRemote")]>
           (<[js "content" := VStr (JSON_stringify parsedRemote)]>
           {[js "contentDigest" := VStr (createContentDigest parsedRemote)]}))]}))).

(** [local || path.join(programDir, `.cache`, ..., name)] *)
Definition localPathOf (programDir : jsstring) (o : PluginOptions) : jsstring :=
  orElse (local o)
         (path_join [programDir; js ".cache";
                     js "gatsby-source-git-as-filesystem"; name o]).

Definition sourceNodes (o : PluginOptions) : Async W Cause unit :=
  log (js "begin");;
  programDir ← (λ r, (Fulfilled (programDirectory (world r)), r));
  let localPath := localPathOf programDir o in
  parsedRemote ← attempt (gitUrlParse (remote o));
  got ← tryCatch
          (repo ← getRepo localPath (remote o) (branch o);
           log (js "get repo");;
           mret (Some repo))
          (λ e,
           log (js "error happened while getting repo");;
           reporter_error_new (toString e);;
           mret None);
  match got with
  | None => mret tt
  | Some repo =>
    let parsedRemote := delete (js "git_suffix")
                          (<[js "git_suffix" := VBool false]> parsedRemote) in
    ref ← git_raw repo [js "rev-parse"; js "--abbrev-ref"; js "HEAD"];
    let parsedRemote := <[js "ref" := VStr (trim ref)]> parsedRemote in
    repoFiles ← host_fastGlob (default (js "**") (patterns o)) localPath true;
    let remoteId := createNodeId (js "git-remote-" ++ name o) in
    host_createNode (remoteNode o remoteId parsedRemote) None;;
    log (js "create node for git remote at url: " ++ remote o);;
    forOf repoFiles (λ filePath,
      fileNode ← host_createFileNode filePath
                   (<[js "name" := VStr (name o)]>
                    {[js "path" := VStr localPath]});
      log (js "create file node for file at path: " ++ filePath);;
      let fileNode := <[js "gitRemote___NODE" := VStr remoteId]> fileNode in
      host_createNode fileNode
        (Some {[js "name" := VStr (js "gatsby-source-filesystem")]});;
      log (js "create wrapping node for file at path: " ++ filePath))
  end.
End SourceNodes.

(** ** What is assumed of the version-control client

    The client is a collaborator, not part of this module; the laws
    below are what the synchroniser relies on when it is said to leave
    a checkout in a given state. *)

Section Contract.
Context {W Cause : Type} `{!Client W Cause}.

(** The directory at [path] exists and holds at least one entry. *)
Definition populated (path : jsstring) (w : W) : Prop :=
  existsSync path w = true ∧
  ∃ entries, readdirSync path w = Fulfilled entries ∧ entries ≠ [].

(** The remote configured at [path] is [remote], white space at the
    ends apart. *)
Definition tracks (path remote : jsstring) (w : W) : Prop :=
  ∃ url, listRemote (git path) [js "--get-url"] w = Fulfilled url ∧
         trim url = trim remote.

Definition checkedOut (path remote : jsstring) (w : W) : Prop :=
  populated path w ∧ tracks path remote w.

(** A clone that succeeds leaves a checkout of its remote at its
    destination; a fetch or reset that succeeds keeps the checkout it
    ran in. *)
Record CheckoutContract : Prop := {
  clone_checks_out : ∀ remote dest opts w w',
    clone remote dest opts w = (Fulfilled tt, w') → checkedOut dest remote w';
  fetch_keeps_checkout : ∀ path remote opts w w',
    fetch (git path) opts w = (Fulfilled tt, w') →
    checkedOut path remote w → checkedOut path remote w';
  reset_keeps_checkout : ∀ path remote opts w w',
    reset (git path) opts w = (Fulfilled tt, w') →
    checkedOut path remote w → checkedOut path remote w';
}.

(** With nothing changing upstream: a step that fails changes nothing;
    a fetch or a hard reset that succeeded succeeds again with no
    further change; a reset does not undo a fetch; and a fresh shallow
    clone is up to date, its only remote branch being the one checked
    out. *)
Record RefreshContract : Prop := {
  clone_failure_atomic : ∀ remote dest opts w cause w',
    clone remote dest opts w = (Rejected cause, w') → w' = w;
  fetch_failure_atomic : ∀ repo opts w cause w',
    fetch repo opts w = (Rejected cause, w') → w' = w;
  reset_failure_atomic : ∀ repo opts w cause w',
    reset repo opts w = (Rejected cause, w') → w' = w;
  fetch_settles : ∀ repo opts w w',
    fetch repo opts w = (Fulfilled tt, w') →
    fetch repo opts w' = (Fulfilled tt, w');
  reset_settles : ∀ repo opts w w',
    reset repo opts w = (Fulfilled tt, w') →
    reset repo opts w' = (Fulfilled tt, w');
  reset_keeps_fetched : ∀ repo fopts ropts w w',
    fetch repo fopts w = (Fulfilled tt, w) →
    reset repo ropts w = (Fulfilled tt, w') →
    fetch repo fopts w' = (Fulfilled tt, w');
  clone_is_fresh : ∀ remote dest opts w w',
    clone remote dest opts w = (Fulfilled tt, w') →
    (∀ fopts, (fetch (git dest) fopts w').2 = w') ∧
    (∀ b, (reset (git dest) [js "--hard"; js "origin/" ++ b] w').2 = w');
}.
End Contract.
Arguments CheckoutContract W Cause {_}.
Arguments RefreshContract W Cause {_}.

(** ** A reference client

    A small model of the collaborators: remotes with named branches, a
    disk of files, folders and shallow single-branch checkouts, and a
    host that records what it is given. It shows that the laws above
    can be met and gives the statements below something to run on. *)

Module Reference.

Abbreviation Tree := (gmap jsstring jsstring).

Record Remote := mkRemote {
  defaultBranch : jsstring;
  branches : gmap jsstring Tree;
}.

Record Checkout := mkCheckout {
  origin : jsstring;
  tracking : gmap jsstring Tree;
  HEAD : jsstring;
  worktree : Tree;
}.

Inductive Node :=
| File (bytes : jsstring)
| Folder (entries : list jsstring)
| Repository (checkout : Checkout).

Record World := mkWorld {
  disk : gmap jsstring Node;
  remotes : gmap jsstring Remote;
  reported : list jsstring;
  created : list (JsObject * option JsObject);
}.

Inductive Cause :=
| ENOENT
| ENOTDIR
| NotARepository
| DestinationTaken
| UnknownRemote
| UnknownRevision
| BadArguments
| BadUrl.

Definition onDisk (w : World) (d : gmap jsstring Node) : World :=
  mkWorld d (remotes w) (reported w) (created w).

Fixpoint stripPrefix (prefix s : jsstring) : option jsstring :=
  match prefix, s with
  | [], _ => Some s
  | p :: prefix', c :: s' =>
      if bool_decide (p = c) then stripPrefix prefix' s' else None
  | _ :: _, [] => None
  end.

Definition ref_existsSync (path : jsstring) (w : World) : bool :=
  bool_decide (is_Some (disk w !! path)).

Definition ref_readdirSync (path : jsstring) (w : World)
  : Outcome Cause (list jsstring) :=
  match disk w !! path with
  | None => Rejected ENOENT
  | Some (File _) => Rejected ENOTDIR
  | Some (Folder entries) => Fulfilled entries
  | Some (Repository c) => Fulfilled (js ".git" :: (map_to_list (worktree c)).*1)
  end.

Definition ref_listRemote (repo : SimpleGit) (args : list jsstring) (w : World)
  : Outcome Cause jsstring :=
  if bool_decide (args = [js "--get-url"]) then
    match disk w !! baseDir repo with
    | Some (Repository c) => Fulfilled (origin c ++ [LF])
    | _ => Rejected NotARepository
    end
  else Rejected BadArguments.

(** [--depth 1] alone, or followed by [--branch b]. *)
Definition cloneBranch (opts : list jsstring) : option (option jsstring) :=
  match opts with
  | [d; n] =>
      if bool_decide (d = js "--depth" ∧ n = js "1") then Some None else None
  | [d; n; f; b] =>
      if bool_decide (d = js "--depth" ∧ n = js "1" ∧ f = js "--branch")
      then Some (Some b) else None
  | _ => None
  end.

Definition vacant (o : option Node) : bool :=
  match o with
  | None | Some (Folder []) => true
  | _ => false
  end.

Definition ref_clone (remote dest : jsstring) (opts : list jsstring) (w : World)
  : Outcome Cause unit * World :=
  match cloneBranch opts with
  | None => (Rejected BadArguments, w)
  | Some wanted =>
      if vacant (disk w !! dest) then
        match remotes w !! remote with
        | None => (Rejected UnknownRemote, w)
        | Some r =>
            let b := default (defaultBranch r) wanted in
            match branches r !! b with
            | None => (Rejected UnknownRevision, w)
            | Some t =>
                (Fulfilled tt,
                 onDisk w (<[dest := Repository (mkCheckout remote {[b := t]} b t)]>
                           (disk w)))
            end
        end
      else (Rejected DestinationTaken, w)
  end.

(** A shallow fetch moves each remote branch already followed to
    where the remote has it now. *)
Definition refresh (r : Remote) (followed : gmap jsstring Tree) : gmap jsstring Tree :=
  map_imap (λ b t, Some (default t (branches r !! b))) followed.

Definition ref_fetch (repo : SimpleGit) (opts : list jsstring) (w : World)
  : Outcome Cause unit * World :=
  match disk w !! baseDir repo with
  | Some (Repository c) =>
      match remotes w !! origin c with
      | None => (Rejected UnknownRemote, w)
      | Some r =>
          (Fulfilled tt,
           onDisk w (<[baseDir repo :=
                        Repository (mkCheckout (origin c) (refresh r (tracking c))
                                               (HEAD c) (worktree c))]>
                     (disk w)))
      end
  | _ => (Rejected NotARepository, w)
  end.

Definition ref_reset (repo : SimpleGit) (args : list jsstring) (w : World)
  : Outcome Cause unit * World :=
  match args with
  | [mode; target] =>
      if bool_decide (mode = js "--hard") then
        match disk w !! baseDir repo with
        | Some (Repository c) =>
            match stripPrefix (js "origin/") target ≫= (λ b, tracking c !! b) with
            | None => (Rejected UnknownRevision, w)
            | Some t =>
                (Fulfilled tt,
                 onDisk w (<[baseDir repo :=
                              Repository (mkCheckout (origin c) (tracking c)
                                                     (HEAD c) t)]>
                           (disk w)))
            end
        | _ => (Rejected NotARepository, w)
        end
      else (Rejected BadArguments, w)
  | _ => (Rejected BadArguments, w)
  end.

Definition ref_raw (repo : SimpleGit) (args : list jsstring) (w : World)
  : Outcome Cause jsstring * World :=
  if bool_decide (args = [js "rev-parse"; js "--abbrev-ref"; js "HEAD"]) then
    match disk w !! baseDir repo with
    | Some (Repository c) => (Fulfilled (HEAD c ++ [LF]), w)
    | _ => (Rejected NotARepository, w)
    end
  else (Rejected BadArguments, w).

#[export] Instance client : Client World Cause := {|
  existsSync := ref_existsSync;
  readdirSync := ref_readdirSync;
  listRemote := ref_listRemote;
  clone := ref_clone;
  fetch := ref_fetch;
  reset := ref_reset;
  raw := ref_raw;
|}.

Definition ref_fastGlob (pats cwd : jsstring) (absolute : bool) (w : World)
  : Outcome Cause (list jsstring) * World :=
  match disk w !! cwd with
  | Some (Repository c) =>
      (Fulfilled ((λ f, cwd ++ js "/" ++ f) <$> (map_to_list (worktree c)).*1), w)
  | Some (Folder entries) => (Fulfilled ((λ f, cwd ++ js "/" ++ f) <$> entries), w)
  | Some (File _) => (Rejected ENOTDIR, w)
  | None => (Rejected ENOENT, w)
  end.

Definition ref_describe (c : Cause) : jsstring :=
  match c with
  | ENOENT => js "Error: ENOENT"
  | ENOTDIR => js "Error: ENOTDIR"
  | NotARepository => js "Error: not a git repository"
  | DestinationTaken => js "Error: destination path already exists"
  | UnknownRemote => js "Error: repository not found"
  | UnknownRevision => js "Error: unknown revision"
  | BadArguments => js "Error: usage"
  | BadUrl => js "Error: URL parsing failed."
  end.

#[export] Instance host : Host World Cause := {|
  programDirectory := λ _, js "/site";
  path_join := foldr (λ part acc, match acc with
                                  | [] => part
                                  | _ => part ++ js "/" ++ acc
                                  end) [];
  gitUrlParse := λ url, match url with
                        | [] => Rejected BadUrl
                        | _ => Fulfilled (<[js "href" := VStr url]>
                                          {[js "git_suffix" := VBool true]})
                        end;
  JSON_stringify := λ o, match o !! js "href" with
                         | Some (VStr url) => js "{href:" ++ url ++ js "}"
                         | _ => js "{}"
                         end;
  describe := ref_describe;
  fastGlob := ref_fastGlob;
  createNodeId := λ seed, js "id-" ++ seed;
  createContentDigest := λ o, js "digest";
  createFileNode := λ path opts w, (Fulfilled {[js "absolutePath" := VStr path]}, w);
  createNode := λ node plugin w,
    (Fulfilled tt,
     mkWorld (disk w) (remotes w) (reported w) (created w ++ [(node, plugin)]));
  reporter_error := λ message w,
    mkWorld (disk w) (remotes w) (reported w ++ [message]) (created w);
|}.

(** *** Sample worlds *)

Definition upstreamUrl : jsstring := js "https://x/y.git".
Definition otherUrl : jsstring := js "https://x/z.git".
Definition cache : jsstring := js "/site/.cache/gatsby-source-git-as-filesystem/docs".

Definition mainTree : Tree := {[js "README.md" := js "hello"]}.
Definition devTree : Tree := {[js "README.md" := js "work in progress"]}.

Definition upstream : Remote :=
  mkRemote (js "main") (<[js "main" := mainTree]> {[js "dev" := devTree]}).

Definition net : gmap jsstring Remote :=
  <[upstreamUrl := upstream]> {[otherUrl := mkRemote (js "main") {[js "main" := devTree]}]}.

(** Nothing at the cache path yet. *)
Definition bare : World := mkWorld ∅ net [] [].

(** The cache path exists and is empty. *)
Definition hollow : World := mkWorld {[cache := Folder []]} net [] [].

(** A checkout of [upstreamUrl] on [main], one commit behind. *)
Definition stale : World :=
  mkWorld {[cache := Repository (mkCheckout upstreamUrl
                                   {[js "main" := devTree]} (js "main") devTree)]}
          net [] [].

(** A checkout of another remote at the cache path. *)
Definition foreign : World :=
  mkWorld {[cache := Repository (mkCheckout otherUrl
                                   {[js "main" := devTree]} (js "main") devTree)]}
          net [] [].

(** No network: every remote is out of reach. *)
Definition offline : World := mkWorld ∅ ∅ [] [].

Definition start (w : World) : Run World Cause := mkRun w [].

(** The plugin options of a site that sources [upstreamUrl] as [docs]. *)
Definition docs : PluginOptions :=
  {| name := js "docs"; remote := upstreamUrl; branch := None;
     patterns := None; local := None |}.

End Reference.

(** ** The steps of [sourceNodes], one by one *)

(** The calls that report to the build's console. *)
Definition reporting (c : Call) : bool :=
  match c with
  | CallReporterError _ => true
  | _ => false
  end.

Definition reports {Cause} (journal : list (Event Cause)) : list (Event Cause) :=
  List.filter (λ e, reporting (call e)) journal.

(** The calls [getRepo] makes: the filesystem queries and the git
    commands of the synchroniser. [sourceNodes] makes none of them
    itself. *)
Definition synchronising (c : Call) : bool :=
  match c with
  | CallExistsSync _ | CallReaddirSync _ | CallListRemote _ _
  | CallClone _ _ _ | CallFetch _ _ | CallReset _ _ => true
  | _ => false
  end.

(** The paths a file node was asked for, in the order of asking. *)
Definition requestedFiles {Cause} (journal : list (Event Cause)) : list jsstring :=
  omap (λ e, match call e with
             | CallCreateFileNode path _ => Some path
             | _ => None
             end) journal.

(** The nodes handed to [createNode] in the name of another plugin. *)
Definition wrappedNodes {Cause} (journal : list (Event Cause)) : list JsObject :=
  omap (λ e, match call e with
             | CallCreateNode node (Some _) => Some node
             | _ => None
             end) journal.

(** The nodes handed to [createNode] in this plugin's own name. *)
Definition ownNodes {Cause} (journal : list (Event Cause)) : list JsObject :=
  omap (λ e, match call e with
             | CallCreateNode node None => Some node
             | _ => None
             end) journal.

(** A run that stops at its first failed call and rejects with that
    call's cause. *)
Definition failsLast {Cause A} (o : Outcome (JsError Cause) A)
    (calls : list (Event Cause)) : Prop :=
  ∀ e cause, e ∈ calls → failure e = Some cause →
    o = Rejected (Raised cause) ∧ last calls = Some e.

Section Sourcing.
Context {W Cause : Type} `{!Client W Cause, !Host W Cause}.

Definition revParse : list jsstring := [js "rev-parse"; js "--abbrev-ref"; js "HEAD"].

(** [createNodeId(`git-remote-${name}`)] *)
Definition remoteIdOf (o : PluginOptions) : jsstring :=
  createNodeId (js "git-remote-" ++ name o).

(** The parsed remote once [git_suffix] is deleted and [ref] is set. *)
Definition described (parsedRemote : JsObject) (ref : jsstring) : JsObject :=
  <[js "ref" := VStr (trim ref)]>
    (delete (js "git_suffix") (<[js "git_suffix" := VBool false]> parsedRemote)).

Definition fileOptions (o : PluginOptions) (localPath : jsstring) : JsObject :=
  <[js "name" := VStr (name o)]> {[js "path" := VStr localPath]}.

Definition filesystemPlugin : JsObject :=
  {[js "name" := VStr (js "gatsby-source-filesystem")]}.

(** The body of the loop over [repoFiles]. *)
Definition wrapFile (o : PluginOptions) (localPath filePath : jsstring)
  : Async W Cause unit :=
  fileNode ← host_createFileNode filePath (fileOptions o localPath);
  log (js "create file node for file at path: " ++ filePath);;
  let fileNode := <[js "gitRemote___NODE" := VStr (remoteIdOf o)]> fileNode in
  host_createNode fileNode (Some filesystemPlugin);;
  log (js "create wrapping node for file at path: " ++ filePath).

(** What the loop asks of the host: a file node for a path, or the
    creation of a node that points back at the remote node. *)
Definition fileCall (o : PluginOptions) (localPath : jsstring) (e : Event Cause)
  : Prop :=
  (∃ path, call e = CallCreateFileNode path (fileOptions o localPath)) ∨
  (∃ node, call e = CallCreateNode node (Some filesystemPlugin) ∧
           node !! js "gitRemote___NODE" = Some (VStr (remoteIdOf o))).

(** The runs of [sourceNodes] from a world [w] and a journal [j], step
    by step up to the loop over the files. *)
Inductive Sourcing (o : PluginOptions) (w : W) (j : list (Event Cause))
  : Outcome (JsError Cause) unit → Run W Cause → Prop :=
| SourcingUnparsed cause :
    gitUrlParse (remote o) = Rejected cause →
    Sourcing o w j (Rejected (Raised cause)) (mkRun w j)
| SourcingUnsynced parsed e after :
    gitUrlParse (remote o) = Fulfilled parsed →
    getRepo (localPathOf (programDirectory w) o) (remote o) (branch o) (mkRun w j)
      = (Rejected e, after) →
    Sourcing o w j (Fulfilled tt)
      (mkRun (reporter_error (toString e) (world after))
             (journal after ++ [mkEvent (CallReporterError (toString e)) None]))
| SourcingHeadless parsed repo after cause w2 :
    gitUrlParse (remote o) = Fulfilled parsed →
    getRepo (localPathOf (programDirectory w) o) (remote o) (branch o) (mkRun w j)
      = (Fulfilled repo, after) →
    raw repo revParse (world after) = (Rejected cause, w2) →
    Sourcing o w j (Rejected (Raised cause))
      (mkRun w2 (journal after ++ [mkEvent (CallRaw repo revParse) (Some cause)]))
| SourcingUnglobbed parsed repo after ref w2 cause w3 :
    gitUrlParse (remote o) = Fulfilled parsed →
    getRepo (localPathOf (programDirectory w) o) (remote o) (branch o) (mkRun w j)
      = (Fulfilled repo, after) →
    raw repo revParse (world after) = (Fulfilled ref, w2) →
    fastGlob (default (js "**") (patterns o))
             (localPathOf (programDirectory w) o) true w2 = (Rejected cause, w3) →
    Sourcing o w j (Rejected (Raised cause))
      (mkRun w3 (journal after ++
                 [mkEvent (CallRaw repo revParse) None;
                  mkEvent (CallFastGlob (default (js "**") (patterns o))
                             (localPathOf (programDirectory w) o) true)
                          (Some cause)]))
| SourcingRefused parsed repo after ref w2 files w3 cause w4 :
    gitUrlParse (remote o) = Fulfilled parsed →
    getRepo (localPathOf (programDirectory w) o) (remote o) (branch o) (mkRun w j)
      = (Fulfilled repo, after) →
    raw repo revParse (world after) = (Fulfilled ref, w2) →
    fastGlob (default (js "**") (patterns o))
             (localPathOf (programDirectory w) o) true w2 = (Fulfilled files, w3) →
    createNode (remoteNode o (remoteIdOf o) (described parsed ref)) None w3
      = (Rejected cause, w4) →
    Sourcing o w j (Rejected (Raised cause))
      (mkRun w4 (journal after ++
                 [mkEvent (CallRaw repo revParse) None;
                  mkEvent (CallFastGlob (default (js "**") (patterns o))
                             (localPathOf (programDirectory w) o) true) None;
                  mkEvent (CallCreateNode
                             (remoteNode o (remoteIdOf o) (described parsed ref)) None)
                          (Some cause)]))
| SourcingFiles parsed repo after ref w2 files w3 w4 :
    gitUrlParse (remote o) = Fulfilled parsed →
    getRepo (localPathOf (programDirectory w) o) (remote o) (branch o) (mkRun w j)
      = (Fulfilled repo, after) →
    raw repo revParse (world after) = (Fulfilled ref, w2) →
    fastGlob (default (js "**") (patterns o))
             (localPathOf (programDirectory w) o) true w2 = (Fulfilled files, w3) →
    createNode (remoteNode o (remoteIdOf o) (described parsed ref)) None w3
      = (Fulfilled tt, w4) →
    Sourcing o w j
      (forOf files (wrapFile o (localPathOf (programDirectory w) o))
         (mkRun w4 (journal after ++
                    [mkEvent (CallRaw repo revParse) None;
                     mkEvent (CallFastGlob (default (js "**") (patterns o))
                                (localPathOf (programDirectory w) o) true) None;
                     mkEvent (CallCreateNode
                                (remoteNode o (remoteIdOf o) (described parsed ref))
                                None) None]))).1
      (forOf files (wrapFile o (localPathOf (programDirectory w) o))
         (mkRun w4 (journal after ++
                    [mkEvent (CallRaw repo revParse) None;
                     mkEvent (CallFastGlob (default (js "**") (patterns o))
                                (localPathOf (programDirectory w) o) true) None;
                     mkEvent (CallCreateNode
                                (remoteNode o (remoteIdOf o) (described parsed ref))
                                None) None]))).2.
End Sourcing.

(** ** More sample worlds and collaborators *)

Module Samples.
Import Reference.

(** The cache path is taken by a file. *)
Definition blocked : World :=
  mkWorld {[cache := File (js "not a directory")]} net [] [].

(** The cache path holds files that are no checkout. *)
Definition cluttered : World :=
  mkWorld {[cache := Folder [js "notes.txt"]]} net [] [].

(** The reference client, but for a [rev-parse] that always fails. *)
Definition headless : Client World Cause := {|
  existsSync := ref_existsSync;
  readdirSync := ref_readdirSync;
  listRemote := ref_listRemote;
  clone := ref_clone;
  fetch := ref_fetch;
  reset := ref_reset;
  raw := λ _ _ w, (Rejected NotARepository, w);
|}.

(** The reference host, but for a glob that always fails. *)
Definition globless : Host World Cause := {|
  programDirectory := programDirectory (Host := host);
  path_join := path_join (Host := host);
  gitUrlParse := gitUrlParse (Host := host);
  JSON_stringify := JSON_stringify (Host := host);
  describe := ref_describe;
  fastGlob := λ _ _ _ w, (Rejected ENOENT, w);
  createNodeId := createNodeId (Host := host);
  createContentDigest := createContentDigest (Host := host);
  createFileNode := createFileNode (Host := host);
  createNode := createNode (Host := host);
  reporter_error := reporter_error (Host := host);
|}.

(** The reference host, but for file nodes it cannot make. *)
Definition nodeless : Host World Cause := {|
  programDirectory := programDirectory (Host := host);
  path_join := path_join (Host := host);
  gitUrlParse := gitUrlParse (Host := host);
  JSON_stringify := JSON_stringify (Host := host);
  describe := ref_describe;
  fastGlob := ref_fastGlob;
  createNodeId := createNodeId (Host := host);
  createContentDigest := createContentDigest (Host := host);
  createFileNode := λ _ _ w, (Rejected ENOENT, w);
  createNode := createNode (Host := host);
  reporter_error := reporter_error (Host := host);
|}.



(** [docs] with the checkout kept at a path of the user's. *)
Definition docsAt (path : jsstring) : PluginOptions :=
  {| name := js "docs"; remote := upstreamUrl; branch := None;
     patterns := None; local := Some path |}.

(** Plugin options whose remote is the empty string. *)
Definition nameless : PluginOptions :=
  {| name := js "docs"; remote := []; branch := None;
     patterns := None; local := None |}.

End Samples.

(** * Properties *)

(** ** Trimming *)

Section TrimFacts.
Lemma str_eq_true a b : str_eq a b = true ↔ a = b.
Proof. unfold str_eq. apply bool_decide_eq_true. Qed.

Lemma trimStart_blank_app w s : blank w → trimStart (w ++ s) = trimStart s.
Proof.
  induction 1 as [|c w Hc _ IH]; simpl; [done|]. by rewrite Hc.
Qed.

Lemma trimStart_blank w : blank w → trimStart w = [].
Proof.
  intros Hw. rewrite <- (app_nil_r w). by rewrite trimStart_blank_app.
Qed.

Lemma blank_rev w : blank w → blank (rev w).
Proof. apply List.Forall_rev. Qed.

Lemma trimEnd_app_blank s w : blank w → trimEnd (s ++ w) = trimEnd s.
Proof.
  intros Hw. unfold trimEnd. rewrite rev_app_distr.
  by rewrite trimStart_blank_app by by apply blank_rev.
Qed.

Lemma trimEnd_nil : trimEnd [] = [].
Proof. reflexivity. Qed.

Lemma trim_app_blank s w : blank w → trim (s ++ w) = trim s.
Proof.
  intros Hw. unfold trim. induction s as [|c s IH]; simpl.
  - by rewrite trimStart_blank.
  - destruct (isWhiteSpace c); [done|].
    exact (trimEnd_app_blank (c :: s) w Hw).
Qed.

(** White space around a string never shows in its trimmed form. *)
Lemma trim_pad w1 s w2 : blank w1 → blank w2 → trim (w1 ++ s ++ w2) = trim s.
Proof.
  intros H1 H2. rewrite app_assoc, trim_app_blank by done.
  unfold trim. by rewrite trimStart_blank_app.
Qed.

Lemma trimStart_split s : ∃ w, blank w ∧ s = w ++ trimStart s.
Proof.
  induction s as [|c s (w & Hw & Hs)]; simpl.
  - exists []. split; [constructor | done].
  - destruct (isWhiteSpace c) eqn:Hc.
    + exists (c :: w). split; [by constructor|]. simpl. by rewrite <- Hs.
    + exists []. split; [constructor | done].
Qed.

Lemma trimEnd_split s : ∃ w, blank w ∧ s = trimEnd s ++ w.
Proof.
  destruct (trimStart_split (rev s)) as (w & Hw & Hs).
  exists (rev w). split; [by apply blank_rev|].
  unfold trimEnd. rewrite <- rev_app_distr, <- Hs. by rewrite rev_involutive.
Qed.

(** [trim] removes only white space, and only at the two ends. *)
Lemma trim_split s : ∃ w1 w2, blank w1 ∧ blank w2 ∧ s = w1 ++ trim s ++ w2.
Proof.
  destruct (trimStart_split s) as (w1 & H1 & Hs).
  destruct (trimEnd_split (trimStart s)) as (w2 & H2 & Ht).
  exists w1, w2. unfold trim. by rewrite <- Ht.
Qed.

Lemma trimStart_head c t s : trimStart s = c :: t → isWhiteSpace c = false.
Proof.
  induction s as [|d s IH]; simpl; [done|].
  destruct (isWhiteSpace d) eqn:Hd; [done|]. congruence.
Qed.

Lemma trim_app_newline s : trim (s ++ [LF]) = trim s.
Proof. apply trim_app_blank. by repeat constructor. Qed.

(** What is left after [trim] neither starts nor ends with white space. *)
Lemma trim_head c t s : trim s = c :: t → isWhiteSpace c = false.
Proof.
  intros Ht. destruct (trimEnd_split (trimStart s)) as (w & _ & Hs).
  change (trimEnd (trimStart s)) with (trim s) in Hs. rewrite Ht in Hs.
  by eapply trimStart_head.
Qed.

Lemma trim_last c t s : trim s = t ++ [c] → isWhiteSpace c = false.
Proof.
  unfold trim, trimEnd. intros Ht.
  apply (f_equal (@rev N)) in Ht. rewrite rev_involutive, rev_app_distr in Ht.
  exact (trimStart_head _ _ _ Ht).
Qed.

Lemma trim_trim s : trim (trim s) = trim s.
Proof.
  destruct (trim_split s) as (w1 & w2 & H1 & H2 & Hs).
  rewrite <- (trim_pad w1 (trim s) w2 H1 H2). by rewrite <- Hs.
Qed.
End TrimFacts.

(** ** The paths through [getRepo] *)

Section GetRepoPaths.
Context {W Cause : Type} `{!Client W Cause}.
Implicit Types (w : W) (j : list (Event Cause)) (b : option jsstring).
Implicit Types (cachePath remote url : jsstring).

Ltac step_async :=
  unfold getRepo, isAlreadyCloned, getTargetBranch, fs_existsSync,
    fs_readdirSync, git_listRemote, git_clone, git_fetch, git_reset,
    inquire, perform, throw;
  unfold mbind, mret, Async_bind, Async_ret, async_bind, async_ret;
  cbn [world journal negb].

Ltac tidy_journal :=
  unfold detection, fetchOpts, resetOpts, ConfigurationConflict;
  rewrite <- ?List.app_assoc; cbn [app]; reflexivity.

(** Every run of [getRepo] follows one of the paths of [Sync], and adds
    that path's calls to the journal. *)
Lemma getRepo_sync cachePath remote b w j :
  ∃ o w' calls,
    getRepo cachePath remote b (mkRun w j) = (o, mkRun w' (j ++ calls)) ∧
    Sync cachePath remote b w o w' calls.
Proof.
  destruct (existsSync cachePath w) eqn:Hpresent.
  2: { destruct (clone remote cachePath (cloneOpts b) w) as [o w'] eqn:Hclone.
       exists (thenValue (passOn o) (git cachePath)), w'. eexists.
       split; [|by eapply SyncAbsent].
       step_async. rewrite Hpresent. cbn. rewrite Hclone.
       destruct o as [[]|cause]; cbn; tidy_journal. }
  destruct (readdirSync cachePath w) as [[|entry entries]|cause] eqn:Hdir.
  - destruct (clone remote cachePath (cloneOpts b) w) as [o w'] eqn:Hclone.
    exists (thenValue (passOn o) (git cachePath)), w'. eexists.
    split; [|by eapply SyncEmpty].
    step_async. rewrite Hpresent. cbn. rewrite Hdir. cbn. rewrite Hclone.
    destruct o as [[]|cause]; cbn; tidy_journal.
  - destruct (listRemote (git cachePath) [js "--get-url"] w) as [url|cause] eqn:Hurl.
    2: { exists (Rejected (Raised cause)), w. eexists.
         split; [|by eapply SyncUnqueried].
         step_async. rewrite Hpresent. cbn. rewrite Hdir. cbn. rewrite Hurl. cbn.
         tidy_journal. }
    destruct (decide (trim url = trim remote)) as [Heq|Hne].
    2: { exists (Rejected (ConfigurationConflict cachePath)), w. eexists.
         split; [|by eapply SyncMismatch].
         step_async. rewrite Hpresent. cbn. rewrite Hdir. cbn. rewrite Hurl. cbn.
         unfold str_eq. rewrite bool_decide_eq_false_2 by done. tidy_journal. }
    destruct (fetch (git cachePath) fetchOpts w) as [[[]|cause] w1] eqn:Hfetch.
    + destruct (reset (git cachePath) (resetOpts b) w1) as [o w2] eqn:Hreset.
      exists (thenValue (passOn o) (git cachePath)), w2. eexists.
      split; [|by eapply SyncFetched].
      step_async. rewrite Hpresent. cbn. rewrite Hdir. cbn. rewrite Hurl. cbn.
      unfold str_eq. rewrite bool_decide_eq_true_2 by done. cbn.
      unfold fetchOpts in Hfetch. rewrite Hfetch. cbn.
      unfold resetOpts in Hreset. rewrite Hreset.
      destruct o as [[]|cause]; cbn; tidy_journal.
    + exists (Rejected (Raised cause)), w1. eexists.
      split; [|by eapply SyncFetchFailed].
      step_async. rewrite Hpresent. cbn. rewrite Hdir. cbn. rewrite Hurl. cbn.
      unfold str_eq. rewrite bool_decide_eq_true_2 by done. cbn.
      unfold fetchOpts in Hfetch. rewrite Hfetch. cbn. tidy_journal.
  - exists (Rejected (Raised cause)), w. eexists.
    split; [|by eapply SyncUnreadable].
    step_async. rewrite Hpresent. cbn. rewrite Hdir. cbn. tidy_journal.
Qed.

End GetRepoPaths.

(** ** The claims on [getRepo] that need no law of the client *)

Section GetRepoClaims.
Context {W Cause : Type} `{!Client W Cause}.
Implicit Types (w : W) (j : list (Event Cause)) (b : option jsstring).
Implicit Types (cachePath remote url : jsstring).

Lemma mutations_app j1 j2 : mutations (j1 ++ j2) = mutations j1 ++ mutations j2.
Proof. apply List.filter_app. Qed.

Lemma creations_app j1 j2 : creations (j1 ++ j2) = creations j1 ++ creations j2.
Proof. apply List.filter_app. Qed.

Lemma mutations_detection cachePath (answered : option Cause) :
  mutations (detection cachePath answered) = [].
Proof. reflexivity. Qed.

(** [getRepo] itself never asks the host to create a node. *)
Lemma Sync_creates_nothing cachePath remote b w o w' calls :
  Sync cachePath remote b w o w' calls → creations calls = [].
Proof. by destruct 1. Qed.

Ltac sync_cases cachePath remote b w j :=
  let o := fresh "o" in
  let w' := fresh "w'" in
  let calls := fresh "calls" in
  let Hrun := fresh "Hrun" in
  let Hsync := fresh "Hsync" in
  destruct (getRepo_sync cachePath remote b w j) as (o & w' & calls & Hrun & Hsync);
  rewrite Hrun; cbn [fst snd world journal];
  inversion Hsync; subst; clear Hsync; try congruence.

(** C1. Over a path that exists, holds entries and whose configured
    remote differs, once trimmed, from the trimmed [remote], [getRepo]
    rejects with the conflict error; it issues no clone, fetch or
    reset, and the world it leaves is the world it found. *)
Theorem getRepo_mismatched_remote_conflict cachePath remote b w j entries url :
  existsSync cachePath w = true →
  readdirSync cachePath w = Fulfilled entries →
  entries ≠ [] →
  listRemote (git cachePath) [js "--get-url"] w = Fulfilled url →
  trim url ≠ trim remote →
  (getRepo cachePath remote b (mkRun w j)).1
    = Rejected (ConfigurationConflict cachePath) ∧
  world (getRepo cachePath remote b (mkRun w j)).2 = w ∧
  mutations (journal (getRepo cachePath remote b (mkRun w j)).2) = mutations j.
Proof.
  intros Hpresent Hdir Hsome Hurl Hne.
  sync_cases cachePath remote b w j.
  rewrite mutations_app, mutations_detection, app_nil_r. done.
Qed.

(** C4. Over a path that exists with no entry [getRepo] does what it
    does over a path that does not exist: its one mutating call is the
    clone, with the same arguments, it settles as that clone settles
    and leaves the world that clone leaves; no fetch, no reset. *)
Theorem getRepo_empty_as_absent cachePath remote b (hollow bare : W) j :
  existsSync cachePath hollow = true →
  readdirSync cachePath hollow = Fulfilled [] →
  existsSync cachePath bare = false →
  ∀ w, w = hollow ∨ w = bare →
    let settled := clone remote cachePath (cloneOpts b) w in
    (getRepo cachePath remote b (mkRun w j)).1
      = thenValue (passOn settled.1) (git cachePath) ∧
    world (getRepo cachePath remote b (mkRun w j)).2 = settled.2 ∧
    mutations (journal (getRepo cachePath remote b (mkRun w j)).2)
      = mutations j ++ [mkEvent (CallClone remote cachePath (cloneOpts b))
                                (failureOf settled.1)].
Proof.
  intros Hpresent Hdir Habsent w [-> | ->]; cbn zeta.
  - sync_cases cachePath remote b hollow j.
    match goal with H : clone _ _ _ _ = _ |- _ => rewrite H end.
    by rewrite mutations_app.
  - sync_cases cachePath remote b bare j.
    match goal with H : clone _ _ _ _ = _ |- _ => rewrite H end.
    by rewrite mutations_app.
Qed.

(** C6. Where the path is absent or empty, the one clone issued asks
    for depth 1, and carries a branch restriction exactly when [branch]
    is a string; with no [branch] the options are the depth alone. *)
Theorem getRepo_clone_options cachePath remote b w j :
  existsSync cachePath w = false ∨
    (existsSync cachePath w = true ∧ readdirSync cachePath w = Fulfilled []) →
  (∃ settled,
     mutations (journal (getRepo cachePath remote b (mkRun w j)).2)
       = mutations j ++ [mkEvent (CallClone remote cachePath (cloneOpts b)) settled]) ∧
  take 2 (cloneOpts b) = [js "--depth"; js "1"] ∧
  (js "--branch" ∈ cloneOpts b ↔ is_Some b) ∧
  (∀ text, b = Some text →
     cloneOpts b = [js "--depth"; js "1"; js "--branch"; text]) ∧
  (b = None → cloneOpts b = [js "--depth"; js "1"]).
Proof.
  intros Hstate. split; [|split; [|split; [|split]]].
  - destruct Hstate as [Habsent | [Hpresent Hdir]];
      sync_cases cachePath remote b w j; eexists; by rewrite mutations_app.
  - by destruct b.
  - destruct b as [text|]; cbn.
    + split; [by eauto|]. intros _.
      do 2 apply list_elem_of_further. apply list_elem_of_here.
    + split; [|by intros []]. rewrite !elem_of_cons, elem_of_nil.
      intros [Heq | [Heq | []]]; vm_compute in Heq; discriminate.
  - by intros text ->.
  - by intros ->.
Qed.

Ltac distinct_calls :=
  repeat (apply NoDup_cons_2;
          [rewrite ?elem_of_cons, ?elem_of_nil; intros ?; destruct_or?; done|]);
  apply NoDup_nil_2.

Ltac last_failed He Hfail :=
  rewrite ?elem_of_cons, ?elem_of_nil in He; destruct_or?; subst; try done;
  cbn in Hfail; try discriminate;
  repeat match goal with
         | o : Outcome _ _ |- _ => destruct o; cbn in *
         end; try discriminate; simplify_eq; by split.

Ltac never_issued :=
  try match goal with
      | H : _ ∈ _ |- _ =>
          (rewrite ?elem_of_cons, ?elem_of_nil in H; destruct_or?; done)
      end.

Ltac same_call :=
  repeat match goal with
         | H1 : ?t = _, H2 : ?t = _ |- _ => rewrite H1 in H2; simplify_eq; cbn
         end.

(** C7. A failure of the clone, the remote-URL query, the fetch or the
    reset is what [getRepo] rejects with, cause untouched; a failed call
    is the last call of the run, and no call is issued twice. *)
Theorem getRepo_failures_surface cachePath remote b w j :
  ∃ calls,
    journal (getRepo cachePath remote b (mkRun w j)).2 = j ++ calls ∧
    NoDup (call <$> calls) ∧
    (∀ e cause, e ∈ calls → failure e = Some cause →
       (getRepo cachePath remote b (mkRun w j)).1 = Rejected (Raised cause) ∧
       last calls = Some e) ∧
    (∀ cause w',
       CallClone remote cachePath (cloneOpts b) ∈ call <$> calls →
       clone remote cachePath (cloneOpts b) w = (Rejected cause, w') →
       (getRepo cachePath remote b (mkRun w j)).1 = Rejected (Raised cause)) ∧
    (∀ cause,
       CallListRemote (git cachePath) [js "--get-url"] ∈ call <$> calls →
       listRemote (git cachePath) [js "--get-url"] w = Rejected cause →
       (getRepo cachePath remote b (mkRun w j)).1 = Rejected (Raised cause)) ∧
    (∀ cause w',
       CallFetch (git cachePath) fetchOpts ∈ call <$> calls →
       fetch (git cachePath) fetchOpts w = (Rejected cause, w') →
       (getRepo cachePath remote b (mkRun w j)).1 = Rejected (Raised cause)) ∧
    (∀ cause w1 w',
       CallReset (git cachePath) (resetOpts b) ∈ call <$> calls →
       fetch (git cachePath) fetchOpts w = (Fulfilled tt, w1) →
       reset (git cachePath) (resetOpts b) w1 = (Rejected cause, w') →
       (getRepo cachePath remote b (mkRun w j)).1 = Rejected (Raised cause)).
Proof.
  sync_cases cachePath remote b w j; unfold detection; cbn [app];
    eexists; (split; [reflexivity|]);
    (split; [cbn; distinct_calls|]);
    (split; [intros e cause0 He Hfail; last_failed He Hfail|]);
    repeat split; intros; cbn in *; never_issued; same_call; by try congruence.
Qed.

(** C5. With [stored] the remote URL the checkout answers with,
    [isAlreadyCloned] answers true exactly when [stored] and [remote]
    are the same string of code units once both are trimmed; white space
    or a line end around either of them makes no difference. *)
Theorem isAlreadyCloned_compares_trimmed repoPath stored remote w j :
  listRemote (git repoPath) [js "--get-url"] w = Fulfilled stored →
  (∃ answer,
     (isAlreadyCloned remote repoPath (mkRun w j)).1 = Fulfilled answer ∧
     (answer = true ↔ trim stored = trim remote)) ∧
  (∀ core pre post pre' post',
     blank pre → blank post → blank pre' → blank post' →
     stored = pre ++ core ++ post →
     remote = pre' ++ core ++ post' →
     (isAlreadyCloned remote repoPath (mkRun w j)).1 = Fulfilled true).
Proof.
  intros Hurl.
  assert ((isAlreadyCloned remote repoPath (mkRun w j)).1
          = Fulfilled (str_eq (trim stored) (trim remote))) as Hrun.
  { unfold isAlreadyCloned, git_listRemote, inquire, perform.
    unfold mbind, mret, Async_bind, Async_ret, async_bind, async_ret.
    cbn. by rewrite Hurl. }
  split.
  - eexists. split; [exact Hrun|]. apply str_eq_true.
  - intros core pre post pre' post' Hpre Hpost Hpre' Hpost' -> ->.
    rewrite Hrun. f_equal. apply str_eq_true.
    by rewrite !trim_pad.
Qed.

(** C8. Every run of [getRepo] is a run of queries followed by a run of
    mutating calls: the existence check comes first; a fetch is issued
    only once the three queries of state detection were answered; a
    reset is issued only right after a fetch that succeeded, and nothing
    follows it. *)
Theorem getRepo_detects_then_mutates cachePath remote b w j :
  ∃ queries writes,
    journal (getRepo cachePath remote b (mkRun w j)).2 = j ++ queries ++ writes ∧
    head queries = Some (mkEvent (CallExistsSync cachePath) None) ∧
    Forall (λ e, mutating (call e) = false) queries ∧
    Forall (λ e, mutating (call e) = true) writes ∧
    (writes = [] ∨
     (∃ settled,
        writes = [mkEvent (CallClone remote cachePath (cloneOpts b)) settled]) ∨
     (queries = detection cachePath None ∧
      ((∃ cause,
          writes = [mkEvent (CallFetch (git cachePath) fetchOpts) (Some cause)]) ∨
       (∃ settled,
          writes = [mkEvent (CallFetch (git cachePath) fetchOpts) None;
                    mkEvent (CallReset (git cachePath) (resetOpts b)) settled])))).
Proof.
  sync_cases cachePath remote b w j.
  - exists [mkEvent (CallExistsSync cachePath) None]. eexists.
    split; [reflexivity|]. repeat split; [by repeat constructor..|].
    right; left. by eexists.
  - eexists. exists []. split; [by rewrite app_nil_r|].
    repeat split; [by repeat constructor..|]. by left.
  - exists [mkEvent (CallExistsSync cachePath) None;
            mkEvent (CallReaddirSync cachePath) None]. eexists.
    split; [reflexivity|]. repeat split; [by repeat constructor..|].
    right; left. by eexists.
  - eexists. exists []. split; [by rewrite app_nil_r|].
    repeat split; [by repeat constructor..|]. by left.
  - eexists. exists []. split; [by rewrite app_nil_r|].
    repeat split; [by repeat constructor..|]. by left.
  - exists (detection cachePath None). eexists.
    split; [reflexivity|]. repeat split; [by repeat constructor..|].
    right; right. split; [done|]. left. by eexists.
  - exists (detection cachePath None). eexists.
    split; [reflexivity|]. repeat split; [by repeat constructor..|].
    right; right. split; [done|]. right. by eexists.
Qed.

End GetRepoClaims.

(** ** The claims on [getRepo] that rest on the client's contract *)

Section ContractClaims.
Context {W Cause : Type} `{!Client W Cause}.
Implicit Types (w : W) (j : list (Event Cause)) (b : option jsstring).
Implicit Types (cachePath remote url : jsstring).

(** From a given world [getRepo] has one run. *)
Lemma Sync_functional cachePath remote b w o1 w1 calls1 o2 w2 calls2 :
  Sync cachePath remote b w o1 w1 calls1 →
  Sync cachePath remote b w o2 w2 calls2 →
  o1 = o2 ∧ w1 = w2 ∧ calls1 = calls2.
Proof.
  destruct 1; inversion 1; subst; try congruence;
    repeat match goal with
           | H1 : ?t = _, H2 : ?t = _ |- _ => rewrite H1 in H2; simplify_eq
           end; done.
Qed.

(** Over a checkout of [remote] the run is a refresh: the fetch, then,
    if it succeeded, the reset. *)
Lemma Sync_refreshes cachePath remote b w o w' calls :
  checkedOut cachePath remote w →
  Sync cachePath remote b w o w' calls →
  (∃ cause, fetch (git cachePath) fetchOpts w = (Rejected cause, w')) ∨
  (∃ w1 settled,
     fetch (git cachePath) fetchOpts w = (Fulfilled tt, w1) ∧
     reset (git cachePath) (resetOpts b) w1 = (settled, w') ∧
     o = thenValue (passOn settled) (git cachePath)).
Proof.
  intros [[Hpresent (entries & Hdir & Hsome)] (url & Hurl & Heq)].
  inversion 1; subst; try congruence.
  - left. by eexists.
  - right. by do 2 eexists.
Qed.

Lemma getRepo_world cachePath remote b w j :
  ∃ o calls,
    Sync cachePath remote b w o (world (getRepo cachePath remote b (mkRun w j)).2) calls.
Proof.
  destruct (getRepo_sync cachePath remote b w j) as (o & w' & calls & Hrun & Hsync).
  rewrite Hrun. by exists o, calls.
Qed.


(** C9. A second [getRepo] with the same arguments, run in the world the
    first one left, leaves that world as it is: whatever can be observed
    of the checkout at [cachePath] is the same after the second call as
    after the first. *)
Theorem getRepo_twice_same_content cachePath remote b r :
  CheckoutContract W Cause →
  RefreshContract W Cause →
  let first := (getRepo cachePath remote b r).2 in
  let second := (getRepo cachePath remote b first).2 in
  world second = world first ∧
  ∀ (Content : Type) (content : jsstring → W → Content),
    content cachePath (world second) = content cachePath (world first).
Proof.
  intros laws refresh first second.
  assert (world second = world first) as Hsame; [|by rewrite Hsame].
  subst first second. destruct r as [w j].
  destruct (getRepo_sync cachePath remote b w j) as (o & w' & calls & Hrun & Hsync).
  rewrite Hrun. cbn [snd world].
  destruct (getRepo_world cachePath remote b w' (j ++ calls)) as (o2 & calls2 & Hsecond).
  cbn [snd] in Hsecond.
  set (w'' := world (getRepo cachePath remote b (mkRun w' (j ++ calls))).2) in *.
  clearbody w''. clear Hrun.
  (* a run that left the world untouched repeats itself *)
  assert (w' = w → w'' = w') as Hrepeat.
  { intros ->. by destruct (Sync_functional _ _ _ _ _ _ _ _ _ _ Hsync Hsecond) as (_ & <- & _). }
  assert (∀ opts o1 w1, clone remote cachePath opts w = (o1, w1) →
            w1 = w ∨ (o1 = Fulfilled tt ∧ checkedOut cachePath remote w1)) as Hcloned.
  { intros opts [[]|cause] w1 Hclone.
    - right. split; [done|]. by eapply clone_checks_out.
    - left. by eapply clone_failure_atomic. }
  assert (∀ opts w1, clone remote cachePath opts w = (Fulfilled tt, w1) →
            w' = w1 → w'' = w') as Hfresh.
  { intros opts w1 Hclone ->.
    destruct (clone_is_fresh refresh _ _ _ _ _ Hclone) as [Hf Hr].
    assert (checkedOut cachePath remote w1) as Hco by by eapply clone_checks_out.
    destruct (Sync_refreshes _ _ _ _ _ _ _ Hco Hsecond)
      as [(cause & Hfetch) | (w2 & settled & Hfetch & Hreset & _)].
    - specialize (Hf fetchOpts). by rewrite Hfetch in Hf.
    - specialize (Hf fetchOpts). rewrite Hfetch in Hf. cbn in Hf. subst w2.
      specialize (Hr (interpolate b)). unfold resetOpts in Hreset.
      by rewrite Hreset in Hr. }
  inversion Hsync as [o' ? ? Hclone | | o' ? ? ? Hclone | | |
                      entry entries url cause w1 Hpresent Hdir Hurl Heq Hfetch
                      | entry entries url w1 o' ? Hpresent Hdir Hurl Heq Hfetch Hreset];
    subst; try by apply Hrepeat.
  - destruct (Hcloned _ _ _ Hclone) as [-> | [-> _]]; [by apply Hrepeat|].
    by eapply Hfresh.
  - destruct (Hcloned _ _ _ Hclone) as [-> | [-> _]]; [by apply Hrepeat|].
    by eapply Hfresh.
  - apply Hrepeat. by eapply fetch_failure_atomic.
  - assert (checkedOut cachePath remote w) as Hco.
    { split; [split; [done|]; by eexists | by eexists]. }
    assert (checkedOut cachePath remote w1) as Hco1 by by eapply fetch_keeps_checkout.
    pose proof (fetch_settles refresh _ _ _ _ Hfetch) as Hfetch1.
    destruct o' as [[]|cause].
    + assert (checkedOut cachePath remote w') as Hco2 by by eapply reset_keeps_checkout.
      pose proof (reset_keeps_fetched refresh _ _ _ _ _ Hfetch1 Hreset) as Hfetch2.
      pose proof (reset_settles refresh _ _ _ _ Hreset) as Hreset2.
      destruct (Sync_refreshes _ _ _ _ _ _ _ Hco2 Hsecond)
        as [(cause & Hf) | (w2 & settled & Hf & Hr & _)]; [congruence|].
      rewrite Hfetch2 in Hf. injection Hf as <-. congruence.
    + assert (w' = w1) as -> by by eapply reset_failure_atomic.
      destruct (Sync_refreshes _ _ _ _ _ _ _ Hco1 Hsecond)
        as [(cause' & Hf) | (w2 & settled & Hf & Hr & _)]; [congruence|].
      rewrite Hfetch1 in Hf. injection Hf as <-. congruence.
Qed.

End ContractClaims.

(** ** The reference client meets the contract *)

Section ReferenceFacts.
Import Reference.
Implicit Types (w : World) (c : Checkout) (r : Remote).

Ltac reference :=
  cbn [existsSync readdirSync listRemote clone fetch reset raw client] in *.

Lemma stripPrefix_app prefix s : stripPrefix prefix (prefix ++ s) = Some s.
Proof.
  induction prefix as [|p prefix IH]; cbn; [done|].
  by rewrite bool_decide_eq_true_2.
Qed.

Lemma refresh_lookup r (followed : gmap jsstring Tree) b :
  refresh r followed !! b = (λ t, default t (branches r !! b)) <$> followed !! b.
Proof.
  unfold refresh. rewrite map_lookup_imap. by destruct (followed !! b).
Qed.

Lemma refresh_refresh r (followed : gmap jsstring Tree) :
  refresh r (refresh r followed) = refresh r followed.
Proof.
  apply map_eq. intros b. rewrite !refresh_lookup.
  destruct (followed !! b) as [t|]; cbn; [|done].
  by destruct (branches r !! b).
Qed.

Lemma refresh_fresh r b t :
  branches r !! b = Some t → refresh r {[b := t]} = {[b := t]}.
Proof.
  intros Hb. apply map_eq. intros b'. rewrite refresh_lookup.
  destruct (decide (b = b')) as [<-|Hne].
  - rewrite lookup_singleton_eq. cbn. by rewrite Hb.
  - by rewrite lookup_singleton_ne.
Qed.

(** What a repository at [path] answers to the three queries. *)
Lemma repository_checkedOut path remote w c :
  disk w !! path = Some (Repository c) →
  trim (origin c) = trim remote →
  checkedOut path remote w.
Proof.
  intros Hnode Hurl. split; [split|].
  - reference. unfold ref_existsSync. rewrite Hnode. by apply bool_decide_eq_true_2.
  - reference. unfold ref_readdirSync. rewrite Hnode. by eexists.
  - unfold tracks. reference. unfold ref_listRemote.
    rewrite bool_decide_eq_true_2 by done.
    cbn [baseDir]. rewrite Hnode. eexists. split; [done|]. by rewrite trim_app_newline.
Qed.

Lemma checkedOut_repository path remote w :
  checkedOut path remote w →
  ∃ c, disk w !! path = Some (Repository c) ∧ trim (origin c) = trim remote.
Proof.
  intros [_ (url & Hurl & Heq)]. reference. unfold ref_listRemote in Hurl.
  rewrite bool_decide_eq_true_2 in Hurl by done. cbn [baseDir] in Hurl.
  destruct (disk w !! path) as [[| |c]|]; try discriminate.
  injection Hurl as <-. exists c. split; [done|]. by rewrite <- trim_app_newline.
Qed.

Lemma ref_clone_fulfilled remote dest opts w w' :
  ref_clone remote dest opts w = (Fulfilled tt, w') →
  ∃ r b t,
    remotes w !! remote = Some r ∧ branches r !! b = Some t ∧
    w' = onDisk w (<[dest := Repository (mkCheckout remote {[b := t]} b t)]> (disk w)).
Proof.
  unfold ref_clone. intros Hclone.
  destruct (cloneBranch opts) as [wanted|]; [|discriminate].
  destruct (vacant (disk w !! dest)); [|discriminate].
  destruct (remotes w !! remote) as [r|] eqn:Hr; [|discriminate].
  destruct (branches r !! default (defaultBranch r) wanted) as [t|] eqn:Hb;
    [|discriminate].
  injection Hclone as <-. by exists r, (default (defaultBranch r) wanted), t.
Qed.

Lemma ref_fetch_fulfilled repo opts w w' :
  ref_fetch repo opts w = (Fulfilled tt, w') →
  ∃ c r,
    disk w !! baseDir repo = Some (Repository c) ∧
    remotes w !! origin c = Some r ∧
    w' = onDisk w (<[baseDir repo :=
                      Repository (mkCheckout (origin c) (refresh r (tracking c))
                                             (HEAD c) (worktree c))]> (disk w)).
Proof.
  unfold ref_fetch. intros Hfetch.
  destruct (disk w !! baseDir repo) as [[| |c]|] eqn:Hnode; try discriminate.
  destruct (remotes w !! origin c) as [r|] eqn:Hr; [|discriminate].
  injection Hfetch as <-. by exists c, r.
Qed.

Lemma ref_reset_fulfilled repo args w w' :
  ref_reset repo args w = (Fulfilled tt, w') →
  ∃ c target b t,
    args = [js "--hard"; target] ∧
    disk w !! baseDir repo = Some (Repository c) ∧
    stripPrefix (js "origin/") target = Some b ∧
    tracking c !! b = Some t ∧
    w' = onDisk w (<[baseDir repo :=
                      Repository (mkCheckout (origin c) (tracking c) (HEAD c) t)]>
                   (disk w)).
Proof.
  unfold ref_reset. intros Hreset.
  destruct args as [|mode [|target [|? ?]]]; try discriminate.
  case_bool_decide as Hmode; [subst mode|discriminate].
  destruct (disk w !! baseDir repo) as [[| |c]|] eqn:Hnode; try discriminate.
  destruct (stripPrefix (js "origin/") target) as [b|] eqn:Hstrip; [|discriminate].
  cbn in Hreset. destruct (tracking c !! b) as [t|] eqn:Ht; [|discriminate].
  injection Hreset as <-. by exists c, target, b, t.
Qed.

Lemma reference_checkout_contract : CheckoutContract World Cause.
Proof.
  split.
  - intros remote dest opts w w' (r & b & t & _ & _ & ->)%ref_clone_fulfilled.
    eapply repository_checkedOut; [apply lookup_insert_eq|done].
  - intros path remote opts w w' (c & r & Hnode & _ & ->)%ref_fetch_fulfilled
      (c' & Hnode' & Hurl)%checkedOut_repository.
    cbn in Hnode. rewrite Hnode in Hnode'. injection Hnode' as <-.
    eapply repository_checkedOut; [apply lookup_insert_eq|done].
  - intros path remote opts w w'
      (c & target & b & t & _ & Hnode & _ & _ & ->)%ref_reset_fulfilled
      (c' & Hnode' & Hurl)%checkedOut_repository.
    cbn in Hnode. rewrite Hnode in Hnode'. injection Hnode' as <-.
    eapply repository_checkedOut; [apply lookup_insert_eq|done].
Qed.

Lemma onDisk_same w node path :
  disk w !! path = Some node → onDisk w (<[path := node]> (disk w)) = w.
Proof. intros Hnode. destruct w. unfold onDisk. cbn in *. by rewrite insert_id. Qed.

Lemma onDisk_again w node node' path :
  onDisk (onDisk w (<[path := node]> (disk w)))
         (<[path := node']> (disk (onDisk w (<[path := node]> (disk w)))))
  = onDisk w (<[path := node']> (disk w)).
Proof. unfold onDisk. cbn. by rewrite insert_insert_eq. Qed.

Lemma reference_refresh_contract : RefreshContract World Cause.
Proof.
  split.
  - intros remote dest opts w cause w'. cbn. unfold ref_clone.
    repeat case_match; by intros [= _ <-].
  - intros repo opts w cause w'. cbn. unfold ref_fetch.
    repeat case_match; by intros [= _ <-].
  - intros repo opts w cause w'. cbn. unfold ref_reset.
    repeat case_match; by intros [= _ <-].
  - intros repo opts w w' (c & r & Hnode & Hr & ->)%ref_fetch_fulfilled.
    cbn. unfold ref_fetch. cbn. rewrite lookup_insert_eq. cbn. rewrite Hr.
    by rewrite refresh_refresh, onDisk_again.
  - intros repo opts w w'
      (c & target & b & t & -> & Hnode & Hstrip & Ht & ->)%ref_reset_fulfilled.
    cbn. unfold ref_reset. rewrite bool_decide_eq_true_2 by done.
    cbn. rewrite lookup_insert_eq, Hstrip. cbn. rewrite Ht.
    by rewrite onDisk_again.
  - intros repo fopts ropts w w' Hfetch
      (c & target & b & t & -> & Hnode & Hstrip & Ht & ->)%ref_reset_fulfilled.
    destruct (ref_fetch_fulfilled _ _ _ _ Hfetch) as (c' & r & Hnode' & Hr & Hw).
    rewrite Hnode in Hnode'. injection Hnode' as <-.
    assert (refresh r (tracking c) = tracking c) as Hkept.
    { apply (f_equal (λ w, disk w !! baseDir repo)) in Hw. cbn in Hw.
      rewrite lookup_insert_eq, Hnode in Hw. injection Hw as Hc.
      by apply (f_equal tracking) in Hc. }
    cbn. unfold ref_fetch. cbn. rewrite lookup_insert_eq. cbn. rewrite Hr, Hkept.
    by rewrite onDisk_again.
  - intros remote dest opts w w' (r & b & t & Hr & Hb & ->)%ref_clone_fulfilled.
    split.
    + intros fopts. cbn. unfold ref_fetch. cbn. rewrite lookup_insert_eq. cbn.
      rewrite Hr. cbn. by rewrite refresh_fresh, onDisk_again.
    + intros x. cbn. unfold ref_reset. rewrite bool_decide_eq_true_2 by done.
      cbn. rewrite lookup_insert_eq, stripPrefix_app. cbn.
      destruct (decide (b = x)) as [<-|Hne].
      * rewrite lookup_singleton_eq. cbn. by rewrite onDisk_again.
      * by rewrite lookup_singleton_ne.
Qed.

End ReferenceFacts.

(** ** [sourceNodes] when the synchroniser fails *)

Section SourceNodesClaims.
Context {W Cause : Type} `{!Client W Cause, !Host W Cause}.
Implicit Types (w : W) (j : list (Event Cause)) (o : PluginOptions).

(** C10. When the [getRepo] that [sourceNodes] awaits rejects with [e],
    [sourceNodes] passes [new Error(`${e}`)] to [reporter.error] and
    fulfils: the report is the one call it adds after those of
    [getRepo], and neither the remote node nor any file node is
    created. *)
Theorem sourceNodes_reports_getRepo_failure o w j parsed e after :
  gitUrlParse (remote o) = Fulfilled parsed →
  getRepo (localPathOf (programDirectory w) o) (remote o) (branch o) (mkRun w j)
    = (Rejected e, after) →
  sourceNodes o (mkRun w j)
    = (Fulfilled tt,
       mkRun (reporter_error (toString e) (world after))
             (journal after ++ [mkEvent (CallReporterError (toString e)) None])) ∧
  creations (journal (sourceNodes o (mkRun w j)).2) = creations j.
Proof.
  intros Hparse Hrepo.
  assert (sourceNodes o (mkRun w j)
          = (Fulfilled tt,
             mkRun (reporter_error (toString e) (world after))
                   (journal after ++ [mkEvent (CallReporterError (toString e)) None])))
    as Hrun.
  { unfold sourceNodes, log, attempt, tryCatch, reporter_error_new, perform.
    unfold mbind, mret, Async_bind, Async_ret, async_bind, async_ret.
    cbn [world]. rewrite Hparse. cbn [passOn]. by rewrite Hrepo. }
  split; [done|]. rewrite Hrun. cbn [snd journal].
  destruct (getRepo_sync (localPathOf (programDirectory w) o) (remote o) (branch o) w j)
    as (o' & w' & calls & Hrun' & Hsync).
  rewrite Hrepo in Hrun'. injection Hrun' as _ ->. cbn [journal].
  rewrite !creations_app, (Sync_creates_nothing _ _ _ _ _ _ _ Hsync).
  by rewrite !app_nil_r.
Qed.

End SourceNodesClaims.

(** ** The target of the reset when [branch] is left out *)

Section ResetTarget.
Context {W Cause : Type} `{!Client W Cause}.
Implicit Types (w : W) (j : list (Event Cause)).

(** C3. Over a checkout of [remote], once the fetch has succeeded, the
    reset that [getRepo] issues with no [branch] names the literal ref
    [origin/undefined]: the calls of the run are the three queries of
    state detection, the fetch and that reset, and none of them asks the
    checkout for its HEAD. *)
Theorem getRepo_resync_absent_branch_target cachePath remote w j entries url w1 :
  existsSync cachePath w = true →
  readdirSync cachePath w = Fulfilled entries →
  entries ≠ [] →
  listRemote (git cachePath) [js "--get-url"] w = Fulfilled url →
  trim url = trim remote →
  fetch (git cachePath) [js "--depth"; js "1"] w = (Fulfilled tt, w1) →
  ∃ settled,
    journal (getRepo cachePath remote None (mkRun w j)).2
      = j ++ detection cachePath None ++
        [mkEvent (CallFetch (git cachePath) [js "--depth"; js "1"]) None;
         mkEvent (CallReset (git cachePath) [js "--hard"; js "origin/undefined"])
                 settled].
Proof.
  intros Hpresent Hdir Hsome Hurl Heq Hfetch.
  destruct (getRepo_sync cachePath remote None w j) as (o & w' & calls & Hrun & Hsync).
  rewrite Hrun. cbn [snd journal].
  inversion Hsync; subst; unfold fetchOpts in *; try congruence.
  by eexists.
Qed.

End ResetTarget.

(** ** Runs on the reference client *)

Section Runs.
Import Reference.

(** A first synchronisation clones the default branch. *)
Example clone_into_bare :
  (getRepo cache upstreamUrl None (start bare)).1 = Fulfilled (git cache) ∧
  disk (world (getRepo cache upstreamUrl None (start bare)).2) !! cache
    = Some (Repository (mkCheckout upstreamUrl {[js "main" := mainTree]}
                                   (js "main") mainTree)).
Proof. by vm_compute. Qed.

(** A refresh with the branch named moves the work tree to the remote's. *)
Example refresh_stale :
  (getRepo cache upstreamUrl (Some (js "main")) (start stale)).1
    = Fulfilled (git cache) ∧
  disk (world (getRepo cache upstreamUrl (Some (js "main")) (start stale)).2) !! cache
    = Some (Repository (mkCheckout upstreamUrl {[js "main" := mainTree]}
                                   (js "main") mainTree)).
Proof. by vm_compute. Qed.

(** A refresh with no branch named fails at the reset, the checkout
    being on [main]. *)
Example refresh_stale_without_branch :
  ref_raw (git cache) [js "rev-parse"; js "--abbrev-ref"; js "HEAD"] stale
    = (Fulfilled (js "main" ++ [LF]), stale) ∧
  (getRepo cache upstreamUrl None (start stale)).1 = Rejected (Raised UnknownRevision) ∧
  last (journal (getRepo cache upstreamUrl None (start stale)).2)
    = Some (mkEvent (CallReset (git cache) [js "--hard"; js "origin/undefined"])
                    (Some UnknownRevision)).
Proof. by vm_compute. Qed.

(** Case matters when remotes are compared. *)
Example remote_case_sensitive :
  (isAlreadyCloned (js "https://x/Y.git") cache (start stale)).1 = Fulfilled false.
Proof. by vm_compute. Qed.

(** A whole [sourceNodes] over an empty cache: one remote node, then one
    file node for the one file. *)
Example sourceNodes_on_bare :
  (sourceNodes docs (start bare)).1 = Fulfilled tt ∧
  length (created (world (sourceNodes docs (start bare)).2)) = 2%nat ∧
  reported (world (sourceNodes docs (start bare)).2) = [].
Proof. by vm_compute. Qed.

End Runs.

(** ** The statements above, applied *)

Section Witnesses.
Import Reference.

Lemma getRepo_mismatched_remote_conflict_witness :
  (getRepo cache upstreamUrl None (start foreign)).1
    = Rejected (ConfigurationConflict cache) ∧
  world (getRepo cache upstreamUrl None (start foreign)).2 = foreign ∧
  mutations (journal (getRepo cache upstreamUrl None (start foreign)).2) = mutations [].
Proof.
  apply (getRepo_mismatched_remote_conflict cache upstreamUrl None foreign []
           [js ".git"; js "README.md"] (otherUrl ++ [LF])).
  - vm_compute. reflexivity.
  - vm_compute. reflexivity.
  - discriminate.
  - vm_compute. reflexivity.
  - vm_compute. discriminate.
Defined.


Lemma getRepo_resync_absent_branch_target_witness :
  ∃ settled,
    journal (getRepo cache upstreamUrl None (start stale)).2
      = [] ++ detection cache None ++
        [mkEvent (CallFetch (git cache) [js "--depth"; js "1"]) None;
         mkEvent (CallReset (git cache) [js "--hard"; js "origin/undefined"]) settled].
Proof.
  apply (getRepo_resync_absent_branch_target cache upstreamUrl stale []
           [js ".git"; js "README.md"] (upstreamUrl ++ [LF])
           (ref_fetch (git cache) [js "--depth"; js "1"] stale).2).
  - vm_compute. reflexivity.
  - vm_compute. reflexivity.
  - discriminate.
  - vm_compute. reflexivity.
  - vm_compute. reflexivity.
  - vm_compute. reflexivity.
Defined.

Lemma getRepo_empty_as_absent_witness :
  let settled := clone upstreamUrl cache (cloneOpts None) hollow in
  (getRepo cache upstreamUrl None (mkRun hollow [])).1
    = thenValue (passOn settled.1) (git cache) ∧
  world (getRepo cache upstreamUrl None (mkRun hollow [])).2 = settled.2 ∧
  mutations (journal (getRepo cache upstreamUrl None (mkRun hollow [])).2)
    = mutations [] ++ [mkEvent (CallClone upstreamUrl cache (cloneOpts None))
                               (failureOf settled.1)].
Proof.
  apply (getRepo_empty_as_absent cache upstreamUrl None hollow bare []).
  - vm_compute. reflexivity.
  - vm_compute. reflexivity.
  - vm_compute. reflexivity.
  - left. reflexivity.
Defined.

Lemma isAlreadyCloned_compares_trimmed_witness :
  (∃ answer,
     (isAlreadyCloned upstreamUrl cache (start stale)).1 = Fulfilled answer ∧
     (answer = true ↔ trim (upstreamUrl ++ [LF]) = trim upstreamUrl)) ∧
  (∀ core pre post pre' post',
     blank pre → blank post → blank pre' → blank post' →
     upstreamUrl ++ [LF] = pre ++ core ++ post →
     upstreamUrl = pre' ++ core ++ post' →
     (isAlreadyCloned upstreamUrl cache (start stale)).1 = Fulfilled true).
Proof.
  apply (isAlreadyCloned_compares_trimmed cache (upstreamUrl ++ [LF]) upstreamUrl
           stale []).
  vm_compute. reflexivity.
Defined.

Lemma getRepo_clone_options_witness :
  (∃ settled,
     mutations (journal (getRepo cache upstreamUrl (Some (js "dev")) (start hollow)).2)
       = mutations [] ++
         [mkEvent (CallClone upstreamUrl cache (cloneOpts (Some (js "dev")))) settled]) ∧
  take 2 (cloneOpts (Some (js "dev"))) = [js "--depth"; js "1"] ∧
  (js "--branch" ∈ cloneOpts (Some (js "dev")) ↔ is_Some (Some (js "dev"))) ∧
  (∀ text, Some (js "dev") = Some text →
     cloneOpts (Some (js "dev")) = [js "--depth"; js "1"; js "--branch"; text]) ∧
  (Some (js "dev") = None → cloneOpts (Some (js "dev")) = [js "--depth"; js "1"]).
Proof.
  apply (getRepo_clone_options cache upstreamUrl (Some (js "dev")) hollow []).
  right. split; vm_compute; reflexivity.
Defined.

Lemma getRepo_twice_same_content_witness :
  let first := (getRepo cache upstreamUrl (Some (js "main")) (start stale)).2 in
  let second := (getRepo cache upstreamUrl (Some (js "main")) first).2 in
  world second = world first ∧
  ∀ (Content : Type) (content : jsstring → World → Content),
    content cache (world second) = content cache (world first).
Proof.
  apply (getRepo_twice_same_content cache upstreamUrl (Some (js "main")) (start stale)).
  - exact reference_checkout_contract.
  - exact reference_refresh_contract.
Defined.

Lemma sourceNodes_reports_getRepo_failure_witness :
  sourceNodes docs (start foreign)
    = (Fulfilled tt,
       mkRun (reporter_error (toString (ConfigurationConflict cache))
                (world (getRepo cache upstreamUrl None (start foreign)).2))
             (journal (getRepo cache upstreamUrl None (start foreign)).2 ++
              [mkEvent (CallReporterError (toString (ConfigurationConflict cache)))
                       None])) ∧
  creations (journal (sourceNodes docs (start foreign)).2) = creations [].
Proof.
  apply (sourceNodes_reports_getRepo_failure docs foreign []
           (<[js "href" := VStr upstreamUrl]> {[js "git_suffix" := VBool true]})).
  - vm_compute. reflexivity.
  - vm_compute. reflexivity.
Defined.

End Witnesses.

(** ** More on [getRepo]: the edges of state detection and the refresh *)

Section GetRepoEdges.
Context {W Cause : Type} `{!Client W Cause}.
Implicit Types (w : W) (j : list (Event Cause)) (b : option jsstring).
Implicit Types (cachePath remote url : jsstring).

Ltac along_sync cachePath remote b w j :=
  let o := fresh "o" in
  let w' := fresh "w'" in
  let calls := fresh "calls" in
  let Hrun := fresh "Hrun" in
  let Hsync := fresh "Hsync" in
  destruct (getRepo_sync cachePath remote b w j) as (o & w' & calls & Hrun & Hsync);
  rewrite Hrun; cbn [fst snd world journal];
  inversion Hsync; subst; clear Hsync; try congruence.

Ltac one_answer :=
  repeat match goal with
         | H1 : ?t = _, H2 : ?t = _ |- _ => rewrite H1 in H2; simplify_eq
         end.

(** X1. Where the path exists but cannot be listed (a file, say),
    [getRepo] rejects with the cause of the listing; the version-control
    client is never called and the world is left as found. *)
Theorem getRepo_unreadable_path cachePath remote b w j cause :
  existsSync cachePath w = true →
  readdirSync cachePath w = Rejected cause →
  getRepo cachePath remote b (mkRun w j)
    = (Rejected (Raised cause),
       mkRun w (j ++ [mkEvent (CallExistsSync cachePath) None;
                      mkEvent (CallReaddirSync cachePath) (Some cause)])).
Proof.
  intros Hpresent Hdir. along_sync cachePath remote b w j; by one_answer.
Qed.

(** X2. Where the path holds entries but the query for its remote URL
    fails (no checkout there, say), [getRepo] rejects with the cause of
    the query; nothing is cloned over the entries, nothing is fetched or
    reset, and the world is left as found. *)
Theorem getRepo_unanswered_remote_query cachePath remote b w j entries cause :
  existsSync cachePath w = true →
  readdirSync cachePath w = Fulfilled entries →
  entries ≠ [] →
  listRemote (git cachePath) [js "--get-url"] w = Rejected cause →
  getRepo cachePath remote b (mkRun w j)
    = (Rejected (Raised cause), mkRun w (j ++ detection cachePath (Some cause))) ∧
  mutations (journal (getRepo cachePath remote b (mkRun w j)).2) = mutations j.
Proof.
  intros Hpresent Hdir Hsome Hurl.
  destruct (getRepo_sync cachePath remote b w j) as (o & w' & calls & Hrun & Hsync).
  rewrite Hrun. cbn [snd journal].
  inversion Hsync; subst; clear Hsync; try congruence.
  all: one_answer; split; [done|].
  all: unfold mutations; rewrite List.filter_app; cbn; by rewrite app_nil_r.
Qed.

(** X3. Over a checkout of [remote], with [branch] a string and the
    fetch done, the reset asks for [--hard origin/<branch>]; [getRepo]
    settles as that reset settles and leaves the world the reset
    leaves. *)
Theorem getRepo_resync_named_branch
    cachePath remote text w j entries url w1 settled w2 :
  existsSync cachePath w = true →
  readdirSync cachePath w = Fulfilled entries →
  entries ≠ [] →
  listRemote (git cachePath) [js "--get-url"] w = Fulfilled url →
  trim url = trim remote →
  fetch (git cachePath) [js "--depth"; js "1"] w = (Fulfilled tt, w1) →
  reset (git cachePath) [js "--hard"; js "origin/" ++ text] w1 = (settled, w2) →
  getRepo cachePath remote (Some text) (mkRun w j)
    = (thenValue (passOn settled) (git cachePath),
       mkRun w2 (j ++ detection cachePath None ++
                 [mkEvent (CallFetch (git cachePath) [js "--depth"; js "1"]) None;
                  mkEvent (CallReset (git cachePath) [js "--hard"; js "origin/" ++ text])
                          (failureOf settled)])).
Proof.
  intros Hpresent Hdir Hsome Hurl Heq Hfetch Hreset.
  along_sync cachePath remote (Some text) w j;
    unfold fetchOpts, resetOpts in *; cbn [interpolate] in *; try congruence;
    by one_answer.
Qed.

(** X4. [getRepo] fulfils exactly when the last call it made is its
    clone or its reset, gone through, and then with the handle on
    [cachePath]; otherwise it rejects. A fetch gone through is never the
    last call. *)
Theorem getRepo_fulfils_iff_last_write_done cachePath remote b w j :
  ((getRepo cachePath remote b (mkRun w j)).1 = Fulfilled (git cachePath) ∨
   ∃ e, (getRepo cachePath remote b (mkRun w j)).1 = Rejected e) ∧
  ((getRepo cachePath remote b (mkRun w j)).1 = Fulfilled (git cachePath) ↔
   last (journal (getRepo cachePath remote b (mkRun w j)).2)
     = Some (mkEvent (CallClone remote cachePath (cloneOpts b)) None) ∨
   last (journal (getRepo cachePath remote b (mkRun w j)).2)
     = Some (mkEvent (CallReset (git cachePath)
                        [js "--hard"; js "origin/" ++ interpolate b]) None)) ∧
  (∀ opts,
     last (journal (getRepo cachePath remote b (mkRun w j)).2)
       ≠ Some (mkEvent (CallFetch (git cachePath) opts) None)).
Proof.
  along_sync cachePath remote b w j; unfold detection, resetOpts;
    rewrite ?last_app; cbn [last app];
    repeat match goal with
           | o : Outcome Cause unit |- _ => destruct o as [[]|]; cbn
           end;
    (split; [by eauto|]);
    (split;
     [split; [intros ?; by eauto | intros [Hlast | Hlast]; by simplify_eq]
     | intros opts Hlast; by simplify_eq]).
Qed.

End GetRepoEdges.

(** ** More on [sourceNodes]: what is created, in which order, and when
    it gives up *)

Section SourceNodesSteps.
Context {W Cause : Type} `{!Client W Cause, !Host W Cause}.
Implicit Types (w : W) (j : list (Event Cause)) (o : PluginOptions).

(** Every run of [sourceNodes] follows one of the paths of [Sourcing]. *)
Lemma sourceNodes_sourcing o w j :
  Sourcing o w j (sourceNodes o (mkRun w j)).1 (sourceNodes o (mkRun w j)).2.
Proof.
  unfold sourceNodes, log, attempt, tryCatch, reporter_error_new, git_raw,
    host_fastGlob, host_createNode, perform.
  unfold mbind, mret, Async_bind, Async_ret, async_bind, async_ret.
  cbn [world].
  destruct (gitUrlParse (remote o)) as [parsed|cause] eqn:Hparse; cbn [passOn].
  2: { by apply SourcingUnparsed. }
  destruct (getRepo (localPathOf (programDirectory w) o) (remote o) (branch o)
              (mkRun w j)) as [[repo|e] after] eqn:Hrepo.
  2: { by eapply SourcingUnsynced. }
  fold revParse.
  destruct (raw repo revParse (world after)) as [[ref|cause] w2] eqn:Hraw;
    cbn [passOn failureOf world journal].
  2: { by eapply SourcingHeadless. }
  destruct (fastGlob (default (js "**") (patterns o))
              (localPathOf (programDirectory w) o) true w2)
    as [[files|cause] w3] eqn:Hglob; cbn [passOn failureOf world journal].
  2: { rewrite <- List.app_assoc. by eapply SourcingUnglobbed. }
  fold (described parsed ref). fold (remoteIdOf o).
  destruct (createNode (remoteNode o (remoteIdOf o) (described parsed ref)) None w3)
    as [[[]|cause] w4] eqn:Hnode; cbn [passOn failureOf world journal].
  2: { rewrite <- !List.app_assoc. by eapply SourcingRefused. }
  rewrite <- !List.app_assoc. cbn [app].
  exact (SourcingFiles o w j parsed repo after ref w2 files w3 w4
           Hparse Hrepo Hraw Hglob Hnode).
Qed.

End SourceNodesSteps.

Section SourceNodesLoop.
Context {W Cause : Type} `{!Client W Cause, !Host W Cause}.
Implicit Types (w : W) (j calls : list (Event Cause)) (o : PluginOptions).

Lemma requestedFiles_app j1 j2 :
  requestedFiles (j1 ++ j2) = requestedFiles j1 ++ requestedFiles j2.
Proof. apply omap_app. Qed.

Lemma wrappedNodes_app j1 j2 :
  wrappedNodes (j1 ++ j2) = wrappedNodes j1 ++ wrappedNodes j2.
Proof. apply omap_app. Qed.

Lemma ownNodes_app j1 j2 : ownNodes (j1 ++ j2) = ownNodes j1 ++ ownNodes j2.
Proof. apply omap_app. Qed.

Lemma reports_app j1 j2 : reports (j1 ++ j2) = reports j1 ++ reports j2.
Proof. apply List.filter_app. Qed.

Lemma failsLast_nil {A} (out : Outcome (JsError Cause) A) : failsLast out [].
Proof. intros e cause He. by apply elem_of_nil in He. Qed.

(** Calls that went through, then a run that stops at its first failure. *)
Lemma failsLast_app {A} (out : Outcome (JsError Cause) A) calls1 calls2 :
  Forall (λ e, failure e = None) calls1 →
  failsLast out calls2 →
  failsLast out (calls1 ++ calls2).
Proof.
  intros Hdone Hstops e cause [He|He]%elem_of_app Hfail.
  - rewrite Forall_forall in Hdone. specialize (Hdone e He). congruence.
  - destruct (Hstops e cause He Hfail) as [-> Hlast]. split; [done|].
    destruct calls2 as [|e2 calls2]; [by apply elem_of_nil in He|].
    by rewrite last_app, Hlast.
Qed.

(** One turn of the loop: the file node is asked for, then, if it was
    made, its creation. *)
Lemma wrapFile_run o localPath filePath (r : Run W Cause) :
  (∃ cause w1,
     createFileNode filePath (fileOptions o localPath) (world r) = (Rejected cause, w1) ∧
     wrapFile o localPath filePath r
       = (Rejected (Raised cause),
          mkRun w1 (journal r ++
                    [mkEvent (CallCreateFileNode filePath (fileOptions o localPath))
                             (Some cause)]))) ∨
  (∃ fileNode w1 settled w2,
     createFileNode filePath (fileOptions o localPath) (world r)
       = (Fulfilled fileNode, w1) ∧
     createNode (<[js "gitRemote___NODE" := VStr (remoteIdOf o)]> fileNode)
                (Some filesystemPlugin) w1 = (settled, w2) ∧
     wrapFile o localPath filePath r
       = (passOn settled,
          mkRun w2 (journal r ++
                    [mkEvent (CallCreateFileNode filePath (fileOptions o localPath)) None;
                     mkEvent (CallCreateNode
                                (<[js "gitRemote___NODE" := VStr (remoteIdOf o)]> fileNode)
                                (Some filesystemPlugin))
                             (failureOf settled)]))).
Proof.
  unfold wrapFile, log, host_createFileNode, host_createNode, perform.
  unfold mbind, mret, Async_bind, Async_ret, async_bind, async_ret.
  destruct (createFileNode filePath (fileOptions o localPath) (world r))
    as [[fileNode|cause] w1] eqn:Hfile; cbn [passOn failureOf world journal].
  - right.
    destruct (createNode (<[js "gitRemote___NODE" := VStr (remoteIdOf o)]> fileNode)
                (Some filesystemPlugin) w1) as [settled w2] eqn:Hnode.
    exists fileNode, w1, settled, w2. split; [done|]. split; [done|].
    destruct settled as [[]|cause]; cbn; by rewrite <- List.app_assoc.
  - left. by exists cause, w1.
Qed.

(** The loop over the files, as a whole. *)
Lemma forOf_wrapFile o localPath files (r : Run W Cause) :
  ∃ calls,
    journal (forOf files (wrapFile o localPath) r).2 = journal r ++ calls ∧
    Forall (fileCall o localPath) calls ∧
    requestedFiles calls `prefix_of` files ∧
    failsLast (forOf files (wrapFile o localPath) r).1 calls ∧
    ((forOf files (wrapFile o localPath) r).1 = Fulfilled tt ∧
     requestedFiles calls = files ∧
     length (wrappedNodes calls) = length files ∧
     Forall (λ e, failure e = None) calls
     ∨ ∃ cause, (forOf files (wrapFile o localPath) r).1 = Rejected (Raised cause)).
Proof.
  revert r. induction files as [|filePath files IH]; intros r.
  - exists []. cbn. rewrite app_nil_r.
    split; [done|]. split; [constructor|]. split; [done|].
    split; [apply failsLast_nil|]. by left.
  - cbn [forOf]. unfold mbind, Async_bind, async_bind.
    destruct (wrapFile_run o localPath filePath r)
      as [(cause & w1 & Hfile & ->) | (fileNode & w1 & settled & w2 & Hfile & Hnode & ->)].
    + eexists. split; [reflexivity|]. cbn.
      split; [|split; [|split]].
      * constructor; [|constructor]. left. by eexists.
      * by apply prefix_cons, prefix_nil.
      * intros e c ->%list_elem_of_singleton [= <-]. done.
      * right. by eexists.
    + destruct settled as [[]|cause]; cbn [passOn failureOf].
      * destruct (IH (mkRun w2 (journal r ++
                       [mkEvent (CallCreateFileNode filePath (fileOptions o localPath)) None;
                        mkEvent (CallCreateNode
                                   (<[js "gitRemote___NODE" := VStr (remoteIdOf o)]> fileNode)
                                   (Some filesystemPlugin)) None])))
          as (calls & Hj & Hcalls & Hprefix & Hstops & Hend).
        cbn [journal] in Hj. rewrite <- List.app_assoc in Hj.
        eexists. split; [exact Hj|].
        split; [|split; [|split]].
        -- constructor; [left; by eexists|].
           constructor; [|done]. right. eexists. split; [done|].
           apply lookup_insert_eq.
        -- cbn. by apply prefix_cons.
        -- apply (failsLast_app _ [_; _]); [by repeat constructor | done].
        -- destruct Hend as [(Hok & Hfiles & Hwrapped & Hdone) | Hrejected];
             [left | by right].
           split; [done|].
           split; [by rewrite requestedFiles_app, Hfiles|].
           split; [by rewrite wrappedNodes_app, length_app, Hwrapped|].
           by repeat constructor.
      * eexists. split; [reflexivity|]. cbn.
        split; [|split; [|split]].
        -- constructor; [left; by eexists|].
           constructor; [|constructor]. right. eexists. split; [done|].
           apply lookup_insert_eq.
        -- by apply prefix_cons, prefix_nil.
        -- intros e c He Hfail. rewrite !elem_of_cons, elem_of_nil in He.
           destruct He as [-> | [-> | []]]; cbn in Hfail; [done|].
           by injection Hfail as <-.
        -- right. by eexists.
Qed.

End SourceNodesLoop.

Section SourceNodesMore.
Context {W Cause : Type} `{!Client W Cause, !Host W Cause}.
Implicit Types (w : W) (j calls : list (Event Cause)) (o : PluginOptions).

Lemma sourceNodes_run o w j :
  ∃ out r', sourceNodes o (mkRun w j) = (out, r') ∧ Sourcing o w j out r'.
Proof.
  exists (sourceNodes o (mkRun w j)).1, (sourceNodes o (mkRun w j)).2.
  split; [apply surjective_pairing | apply sourceNodes_sourcing].
Qed.

(** [getRepo] asks nothing of the build host. *)
Lemma Sync_quiet cachePath remote b w (out : Outcome (JsError Cause) SimpleGit) w' calls :
  Sync cachePath remote b w out w' calls →
  creations calls = [] ∧ reports calls = [] ∧ requestedFiles calls = [] ∧
  wrappedNodes calls = [] ∧ ownNodes calls = [].
Proof. by destruct 1. Qed.

Lemma Sync_failsLast cachePath remote b w (out : Outcome (JsError Cause) SimpleGit) w' calls :
  Sync cachePath remote b w out w' calls →
  failsLast out calls ∧
  (∀ repo, out = Fulfilled repo → Forall (λ e, failure e = None) calls).
Proof.
  destruct 1; unfold detection; cbn [app];
    repeat match goal with
           | s : Outcome Cause unit |- _ => destruct s as [[]|]; cbn
           end;
    (split;
     [ intros e c He Hfail; rewrite ?elem_of_cons, ?elem_of_nil in He;
       destruct_or?; subst; try done; cbn in Hfail; try discriminate;
       by injection Hfail as <-
     | intros repo Hout; try discriminate; by repeat constructor ]).
Qed.

Lemma getRepo_calls cachePath remote b w j out after :
  getRepo cachePath remote b (mkRun w j) = (out, after) →
  ∃ calls, journal after = j ++ calls ∧ Sync cachePath remote b w out (world after) calls.
Proof.
  intros Hrun.
  destruct (getRepo_sync cachePath remote b w j) as (o' & w' & calls & Hrun' & Hsync).
  rewrite Hrun in Hrun'. injection Hrun' as -> ->. by exists calls.
Qed.

Ltac one_run :=
  repeat match goal with
         | H1 : ?t = _, H2 : ?t = _ |- _ => rewrite H1 in H2; simplify_eq
         end.

(** X5. A remote that [gitUrlParse] throws on makes [sourceNodes]
    reject with what was thrown, before anything else is done: no call
    leaves the module, nothing is reported, the world is untouched. *)
Theorem sourceNodes_unparsable_remote o (r : Run W Cause) cause :
  gitUrlParse (remote o) = Rejected cause →
  sourceNodes o r = (Rejected (Raised cause), r).
Proof.
  intros Hparse. destruct r as [w j].
  destruct (sourceNodes_run o w j) as (out & r' & -> & Hs).
  inversion Hs; subst; congruence.
Qed.

(** X6. When the synchroniser has succeeded and the [rev-parse] that
    follows fails, [sourceNodes] rejects with that cause: the failure is
    not reported through [reporter.error], and no node is created. *)
Theorem sourceNodes_rev_parse_failure o w j parsed repo after cause w2 :
  gitUrlParse (remote o) = Fulfilled parsed →
  getRepo (localPathOf (programDirectory w) o) (remote o) (branch o) (mkRun w j)
    = (Fulfilled repo, after) →
  raw repo [js "rev-parse"; js "--abbrev-ref"; js "HEAD"] (world after)
    = (Rejected cause, w2) →
  sourceNodes o (mkRun w j)
    = (Rejected (Raised cause),
       mkRun w2 (journal after ++
                 [mkEvent (CallRaw repo [js "rev-parse"; js "--abbrev-ref"; js "HEAD"])
                          (Some cause)])) ∧
  creations (journal (sourceNodes o (mkRun w j)).2) = creations j ∧
  reports (journal (sourceNodes o (mkRun w j)).2) = reports j.
Proof.
  intros Hparse Hrepo Hraw.
  destruct (getRepo_calls _ _ _ _ _ _ _ Hrepo) as (calls & Hj & Hsync).
  destruct (Sync_quiet _ _ _ _ _ _ _ Hsync) as (Hc & Hr & _).
  destruct (sourceNodes_run o w j) as (out & r' & -> & Hs).
  inversion Hs; subst; unfold revParse in *; one_run; try congruence.
  cbn [snd journal]. rewrite Hj.
  rewrite !creations_app, !reports_app, Hc, Hr. cbn. by rewrite !app_nil_r.
Qed.

(** X7. When the glob fails, [sourceNodes] rejects with that cause, with
    no report and no node created. The glob is asked for the patterns
    given, or for [**] when none is, from the local path, absolute
    paths wanted. *)
Theorem sourceNodes_glob_failure o w j parsed repo after ref w2 cause w3 :
  gitUrlParse (remote o) = Fulfilled parsed →
  getRepo (localPathOf (programDirectory w) o) (remote o) (branch o) (mkRun w j)
    = (Fulfilled repo, after) →
  raw repo [js "rev-parse"; js "--abbrev-ref"; js "HEAD"] (world after)
    = (Fulfilled ref, w2) →
  fastGlob (default (js "**") (patterns o)) (localPathOf (programDirectory w) o) true w2
    = (Rejected cause, w3) →
  sourceNodes o (mkRun w j)
    = (Rejected (Raised cause),
       mkRun w3 (journal after ++
                 [mkEvent (CallRaw repo [js "rev-parse"; js "--abbrev-ref"; js "HEAD"])
                          None;
                  mkEvent (CallFastGlob (default (js "**") (patterns o))
                             (localPathOf (programDirectory w) o) true)
                          (Some cause)])) ∧
  creations (journal (sourceNodes o (mkRun w j)).2) = creations j ∧
  reports (journal (sourceNodes o (mkRun w j)).2) = reports j.
Proof.
  intros Hparse Hrepo Hraw Hglob.
  destruct (getRepo_calls _ _ _ _ _ _ _ Hrepo) as (calls & Hj & Hsync).
  destruct (Sync_quiet _ _ _ _ _ _ _ Hsync) as (Hc & Hr & _).
  destruct (sourceNodes_run o w j) as (out & r' & -> & Hs).
  inversion Hs; subst; unfold revParse in *; one_run; try congruence.
  cbn [snd journal]. rewrite Hj.
  rewrite !creations_app, !reports_app, Hc, Hr. cbn. by rewrite !app_nil_r.
Qed.

(** Every call of the loop creates something, none in the plugin's own
    name. *)
Lemma fileCalls_creations o localPath calls :
  Forall (fileCall o localPath) calls → creations calls = calls.
Proof.
  unfold creations. induction 1 as [|e loop He _ IH]; [done|].
  cbn [List.filter].
  destruct He as [[path He] | (node & He & _)]; rewrite He; cbn [creating];
    by rewrite IH.
Qed.

Lemma fileCalls_ownNodes o localPath calls :
  Forall (fileCall o localPath) calls → ownNodes calls = [].
Proof.
  induction 1 as [|e loop He _ IH]; [done|].
  cbn. by destruct He as [[path He] | (node & He & _)]; rewrite He.
Qed.

(** X8. Over a path taken by a checkout of another remote,
    [sourceNodes] fulfils after one report, whose text is
    [Error: Can't clone to target destination: ] followed by the local
    path; the world changes by that report alone. *)
Theorem sourceNodes_reports_conflict_text o w j parsed entries url :
  gitUrlParse (remote o) = Fulfilled parsed →
  existsSync (localPathOf (programDirectory w) o) w = true →
  readdirSync (localPathOf (programDirectory w) o) w = Fulfilled entries →
  entries ≠ [] →
  listRemote (git (localPathOf (programDirectory w) o)) [js "--get-url"] w
    = Fulfilled url →
  trim url ≠ trim (remote o) →
  let text := js "Error: Can't clone to target destination: "
              ++ localPathOf (programDirectory w) o in
  sourceNodes o (mkRun w j)
    = (Fulfilled tt,
       mkRun (reporter_error text w)
             (j ++ detection (localPathOf (programDirectory w) o) None ++
              [mkEvent (CallReporterError text) None])).
Proof.
  intros Hparse Hpresent Hdir Hsome Hurl Hne text.
  destruct (sourceNodes_run o w j) as (out & r' & -> & Hs).
  assert (∀ (out : Outcome (JsError Cause) SimpleGit) after,
            getRepo (localPathOf (programDirectory w) o) (remote o) (branch o)
              (mkRun w j) = (out, after) →
            out = Rejected (ConfigurationConflict (localPathOf (programDirectory w) o)) ∧
            after = mkRun w (j ++ detection (localPathOf (programDirectory w) o) None))
    as Hconflict.
  { intros out' after Hrepo.
    destruct (getRepo_sync (localPathOf (programDirectory w) o) (remote o) (branch o) w j)
      as (o' & w' & calls & Hrun' & Hsync).
    rewrite Hrepo in Hrun'. injection Hrun' as -> ->.
    inversion Hsync; subst; try congruence. done. }
  inversion Hs as [| ? e after Hp Hrepo | ? ? after ? ? Hp Hrepo
                   | ? ? after ? ? ? ? Hp Hrepo | ? ? after ? ? ? ? ? ? Hp Hrepo
                   | ? ? after ? ? ? ? ? Hp Hrepo];
    subst; try congruence;
    destruct (Hconflict _ _ Hrepo) as [Hout ->]; try discriminate.
  injection Hout as ->. cbn [world journal].
  by rewrite <- List.app_assoc.
Qed.

(** X9. Of all the calls that create something, the first, if there is
    one, is the creation of the remote node, in the plugin's own name;
    every later one is a file node asked for with the plugin's name and
    the local path, or the creation, in the name of
    [gatsby-source-filesystem], of a node whose [gitRemote___NODE] is
    the id of the remote node. *)
Theorem sourceNodes_remote_node_first o w j :
  ∃ calls,
    journal (sourceNodes o (mkRun w j)).2 = j ++ calls ∧
    (creations calls = [] ∨
     ∃ parsed ref settled rest,
       gitUrlParse (remote o) = Fulfilled parsed ∧
       creations calls
         = mkEvent (CallCreateNode (remoteNode o (remoteIdOf o) (described parsed ref))
                                   None) settled :: rest ∧
       Forall (fileCall o (localPathOf (programDirectory w) o)) rest ∧
       ownNodes rest = []).
Proof.
  destruct (sourceNodes_run o w j) as (out & r' & -> & Hs). cbn [snd].
  inversion Hs as [| ? e after Hp Hrepo | ? ? after ? ? Hp Hrepo
                   | ? ? after ? ? ? ? Hp Hrepo | ? ? after ? ? ? ? ? ? Hp Hrepo
                   | ? ? after ? ? ? ? ? Hp Hrepo];
    subst; cbn [journal].
  - exists []. split; [by rewrite app_nil_r | by left].
  - destruct (getRepo_calls _ _ _ _ _ _ _ Hrepo) as (calls & -> & Hsync).
    destruct (Sync_quiet _ _ _ _ _ _ _ Hsync) as (Hc & _).
    eexists. split; [by rewrite <- List.app_assoc|].
    left. by rewrite creations_app, Hc.
  - destruct (getRepo_calls _ _ _ _ _ _ _ Hrepo) as (calls & -> & Hsync).
    destruct (Sync_quiet _ _ _ _ _ _ _ Hsync) as (Hc & _).
    eexists. split; [by rewrite <- List.app_assoc|].
    left. by rewrite creations_app, Hc.
  - destruct (getRepo_calls _ _ _ _ _ _ _ Hrepo) as (calls & -> & Hsync).
    destruct (Sync_quiet _ _ _ _ _ _ _ Hsync) as (Hc & _).
    eexists. split; [by rewrite <- List.app_assoc|].
    left. by rewrite creations_app, Hc.
  - destruct (getRepo_calls _ _ _ _ _ _ _ Hrepo) as (calls & -> & Hsync).
    destruct (Sync_quiet _ _ _ _ _ _ _ Hsync) as (Hc & _).
    eexists. split; [by rewrite <- List.app_assoc|].
    right. do 3 eexists. exists []. split; [done|].
    split; [by rewrite creations_app, Hc|]. by split.
  - destruct (getRepo_calls _ _ _ _ _ _ _ Hrepo) as (calls & Hj & Hsync).
    destruct (Sync_quiet _ _ _ _ _ _ _ Hsync) as (Hc & _).
    match goal with
    | |- context [forOf ?files (wrapFile ?o ?lp) ?r] =>
        destruct (forOf_wrapFile o lp files r)
          as (loop & Hloop & Hfile & _ & _ & _)
    end.
    rewrite Hloop. cbn [journal]. rewrite Hj.
    eexists. split; [by rewrite <- !List.app_assoc|].
    right. do 3 eexists. exists loop. split; [done|].
    split; [|split; [done|]].
    + rewrite !creations_app, Hc, (fileCalls_creations _ _ _ Hfile). by cbn.
    + by eapply fileCalls_ownNodes.
Qed.

(** X10. The remote node handed to [createNode] carries as [ref] the
    output of [rev-parse], trimmed, and no [git_suffix]; it keeps every
    other property of the parsed remote, which come last in the object
    and so win over [id], [internal] and the rest; where the parsed
    remote has no [id], the id is [createNodeId(`git-remote-${name}`)],
    and likewise [sourceInstanceName] is [name] and [internal] holds the
    type [GitRemote] with the content and digest of the parsed remote as
    it then stands. *)
Theorem sourceNodes_remote_node_content o w j parsed repo after ref w2 files w3 :
  gitUrlParse (remote o) = Fulfilled parsed →
  getRepo (localPathOf (programDirectory w) o) (remote o) (branch o) (mkRun w j)
    = (Fulfilled repo, after) →
  raw repo [js "rev-parse"; js "--abbrev-ref"; js "HEAD"] (world after)
    = (Fulfilled ref, w2) →
  fastGlob (default (js "**") (patterns o)) (localPathOf (programDirectory w) o) true w2
    = (Fulfilled files, w3) →
  ∃ node,
    ownNodes (journal (sourceNodes o (mkRun w j)).2) = ownNodes j ++ [node] ∧
    node !! js "ref" = Some (VStr (trim ref)) ∧
    node !! js "git_suffix" = None ∧
    (∀ key value, key ≠ js "ref" → key ≠ js "git_suffix" →
       parsed !! key = Some value → node !! key = Some value) ∧
    (parsed !! js "id" = None →
       node !! js "id" = Some (VStr (createNodeId (js "git-remote-" ++ name o)))) ∧
    (parsed !! js "sourceInstanceName" = None →
       node !! js "sourceInstanceName" = Some (VStr (name o))) ∧
    (parsed !! js "internal" = None →
       node !! js "internal"
         = Some (VObj (<[js "type" := VStr (js "GitRemote")]>
                      (<[js "content" := VStr (JSON_stringify (described parsed ref))]>
                      {[js "contentDigest" :=
                          VStr (createContentDigest (described parsed ref))]})))).
Proof.
  intros Hparse Hrepo Hraw Hglob.
  destruct (getRepo_calls _ _ _ _ _ _ _ Hrepo) as (calls & Hj & Hsync).
  destruct (Sync_quiet _ _ _ _ _ _ _ Hsync) as (_ & _ & _ & _ & Hown).
  exists (remoteNode o (remoteIdOf o) (described parsed ref)).
  split.
  - destruct (sourceNodes_run o w j) as (out & r' & -> & Hs). cbn [snd].
    inversion Hs; subst; unfold revParse in *; one_run; try congruence;
      cbn [journal].
    + rewrite Hj, !ownNodes_app, Hown. by rewrite app_nil_r.
    + match goal with
      | |- context [forOf ?files (wrapFile ?o ?lp) ?r] =>
          destruct (forOf_wrapFile o lp files r)
            as (loop & Hloop & Hfile & _ & _ & _)
      end.
      rewrite Hloop. cbn [journal].
      rewrite Hj, !ownNodes_app, Hown, (fileCalls_ownNodes _ _ _ Hfile).
      by rewrite !app_nil_r.
  - unfold remoteNode, described.
    split; [|split; [|split; [|split; [|split]]]].
    + apply lookup_union_Some_l. apply lookup_insert_eq.
    + apply lookup_union_None. split.
      * rewrite lookup_insert_ne by (by vm_compute). apply lookup_delete_eq.
      * by vm_compute.
    + intros key value Href Hsuffix Hkey. apply lookup_union_Some_l.
      by rewrite lookup_insert_ne, lookup_delete_ne, lookup_insert_ne.
    + intros Hid. rewrite lookup_union_r.
      * apply lookup_insert_eq.
      * rewrite lookup_insert_ne by (by vm_compute).
        rewrite lookup_delete_ne by (by vm_compute).
        by rewrite lookup_insert_ne by (by vm_compute).
    + intros Hid. rewrite lookup_union_r.
      * rewrite lookup_insert_ne by (by vm_compute). apply lookup_insert_eq.
      * rewrite lookup_insert_ne by (by vm_compute).
        rewrite lookup_delete_ne by (by vm_compute).
        by rewrite lookup_insert_ne by (by vm_compute).
    + intros Hid. rewrite lookup_union_r.
      * do 4 (rewrite lookup_insert_ne by (by vm_compute)).
        apply lookup_singleton_eq.
      * rewrite lookup_insert_ne by (by vm_compute).
        rewrite lookup_delete_ne by (by vm_compute).
        by rewrite lookup_insert_ne by (by vm_compute).
Qed.

(** X11. Once the glob has answered, file nodes are asked for the
    paths it gave, in its order and from the first on; if [sourceNodes]
    fulfils, one was asked for every path, and as many nodes were
    created in the name of [gatsby-source-filesystem]. *)
Theorem sourceNodes_every_file_sourced o w j parsed repo after ref w2 files w3 :
  gitUrlParse (remote o) = Fulfilled parsed →
  getRepo (localPathOf (programDirectory w) o) (remote o) (branch o) (mkRun w j)
    = (Fulfilled repo, after) →
  raw repo [js "rev-parse"; js "--abbrev-ref"; js "HEAD"] (world after)
    = (Fulfilled ref, w2) →
  fastGlob (default (js "**") (patterns o)) (localPathOf (programDirectory w) o) true w2
    = (Fulfilled files, w3) →
  ∃ asked,
    requestedFiles (journal (sourceNodes o (mkRun w j)).2) = requestedFiles j ++ asked ∧
    asked `prefix_of` files ∧
    ((sourceNodes o (mkRun w j)).1 = Fulfilled tt →
     asked = files ∧
     length (wrappedNodes (journal (sourceNodes o (mkRun w j)).2))
       = (length (wrappedNodes j) + length files)%nat).
Proof.
  intros Hparse Hrepo Hraw Hglob.
  destruct (getRepo_calls _ _ _ _ _ _ _ Hrepo) as (calls & Hj & Hsync).
  destruct (Sync_quiet _ _ _ _ _ _ _ Hsync) as (_ & _ & Hasked & Hwrapped & _).
  destruct (sourceNodes_run o w j) as (out & r' & -> & Hs). cbn [fst snd].
  inversion Hs; subst; unfold revParse in *; one_run; try congruence;
    cbn [journal].
  - exists []. rewrite Hj, !requestedFiles_app, Hasked.
    split; [by rewrite !app_nil_r|]. split; [apply prefix_nil | done].
  - match goal with
    | |- context [forOf ?files (wrapFile ?o ?lp) ?r] =>
        destruct (forOf_wrapFile o lp files r)
          as (loop & Hloop & _ & Hprefix & _ & Hend)
    end.
    rewrite Hloop. cbn [journal]. exists (requestedFiles loop).
    rewrite Hj, !requestedFiles_app, !wrappedNodes_app, Hasked, Hwrapped.
    split; [by rewrite !app_nil_r|]. split; [done|]. intros Hok.
    destruct Hend as [(_ & Hfiles & Hcount & _) | [cause Hrejected]];
      [|congruence].
    split; [done|]. rewrite !length_app, Hcount. cbn. lia.
Qed.

(** The first call of a run of [getRepo] is the existence check. *)
Lemma Sync_opens cachePath remote b w (out : Outcome (JsError Cause) SimpleGit) w' calls :
  Sync cachePath remote b w out w' calls →
  ∃ rest, calls = mkEvent (CallExistsSync cachePath) None :: rest.
Proof. destruct 1; by eexists. Qed.

(** X12. With the remote parsed, the first call of [sourceNodes] is the
    existence check of the path it synchronises: [local] itself when
    that is a string with something in it; otherwise, an empty [local]
    counting as none, the path joined from the program directory,
    [.cache], the plugin's name and [name]. *)
Theorem sourceNodes_synchronises_local_path o w j parsed :
  gitUrlParse (remote o) = Fulfilled parsed →
  (∃ rest,
     journal (sourceNodes o (mkRun w j)).2
       = j ++ mkEvent (CallExistsSync (localPathOf (programDirectory w) o)) None :: rest) ∧
  (∀ c s, local o = Some (c :: s) → localPathOf (programDirectory w) o = c :: s) ∧
  (local o = None ∨ local o = Some [] →
   localPathOf (programDirectory w) o
     = path_join [programDirectory w; js ".cache";
                  js "gatsby-source-git-as-filesystem"; name o]).
Proof.
  intros Hparse. split; [|split].
  - destruct (sourceNodes_run o w j) as (out & r' & -> & Hs). cbn [snd].
    inversion Hs as [| ? e after Hp Hrepo | ? ? after ? ? Hp Hrepo
                     | ? ? after ? ? ? ? Hp Hrepo | ? ? after ? ? ? ? ? ? Hp Hrepo
                     | ? ? after ? ? ? ? ? Hp Hrepo];
      subst; [congruence|..];
      destruct (getRepo_calls _ _ _ _ _ _ _ Hrepo) as (calls & Hj & Hsync);
      destruct (Sync_opens _ _ _ _ _ _ _ Hsync) as [rest ->];
      try match goal with
          | |- context [forOf ?files (wrapFile ?o ?lp) ?r] =>
              destruct (forOf_wrapFile o lp files r) as (loop & Hloop & _);
              rewrite Hloop
          end;
      cbn [journal]; rewrite Hj; rewrite <- ?List.app_assoc; cbn [app];
      by eexists.
  - intros c s Hlocal. unfold localPathOf. by rewrite Hlocal.
  - intros [Hlocal | Hlocal]; unfold localPathOf; by rewrite Hlocal.
Qed.

Lemma fileCalls_reports o localPath calls :
  Forall (fileCall o localPath) calls → reports calls = [].
Proof.
  unfold reports. induction 1 as [|e loop He _ IH]; [done|].
  cbn [List.filter].
  by destruct He as [[path He] | (node & He & _)]; rewrite He; cbn [reporting].
Qed.

(** X13. [reporter.error] is called at most once in a run, and only for
    a synchronisation that was rejected: the report is then the last
    call, its text is the rejection printed as a string, and the run
    fulfils. A failure anywhere else is never reported. *)
Theorem sourceNodes_reports_only_sync_failure o w j :
  ∃ calls,
    journal (sourceNodes o (mkRun w j)).2 = j ++ calls ∧
    (reports calls = [] ∨
     ∃ e after,
       getRepo (localPathOf (programDirectory w) o) (remote o) (branch o) (mkRun w j)
         = (Rejected e, after) ∧
       reports calls = [mkEvent (CallReporterError (toString e)) None] ∧
       last calls = Some (mkEvent (CallReporterError (toString e)) None) ∧
       (sourceNodes o (mkRun w j)).1 = Fulfilled tt).
Proof.
  destruct (sourceNodes_run o w j) as (out & r' & -> & Hs). cbn [fst snd].
  inversion Hs as [| ? e0 after Hp Hrepo | ? ? after ? ? Hp Hrepo
                   | ? ? after ? ? ? ? Hp Hrepo | ? ? after ? ? ? ? ? ? Hp Hrepo
                   | ? ? after ? ? ? ? ? Hp Hrepo];
    subst; cbn [journal].
  - exists []. split; [by rewrite app_nil_r | by left].
  - destruct (getRepo_calls _ _ _ _ _ _ _ Hrepo) as (calls & Hj & Hsync).
    destruct (Sync_quiet _ _ _ _ _ _ _ Hsync) as (_ & Hr & _).
    rewrite Hj. eexists. split; [by rewrite <- List.app_assoc|].
    right. exists e0, after. split; [done|].
    split; [by rewrite reports_app, Hr|]. split; [by rewrite last_snoc | done].
  - destruct (getRepo_calls _ _ _ _ _ _ _ Hrepo) as (calls & -> & Hsync).
    destruct (Sync_quiet _ _ _ _ _ _ _ Hsync) as (_ & Hr & _).
    eexists. split; [by rewrite <- List.app_assoc|].
    left. by rewrite reports_app, Hr.
  - destruct (getRepo_calls _ _ _ _ _ _ _ Hrepo) as (calls & -> & Hsync).
    destruct (Sync_quiet _ _ _ _ _ _ _ Hsync) as (_ & Hr & _).
    eexists. split; [by rewrite <- List.app_assoc|].
    left. by rewrite reports_app, Hr.
  - destruct (getRepo_calls _ _ _ _ _ _ _ Hrepo) as (calls & -> & Hsync).
    destruct (Sync_quiet _ _ _ _ _ _ _ Hsync) as (_ & Hr & _).
    eexists. split; [by rewrite <- List.app_assoc|].
    left. by rewrite reports_app, Hr.
  - destruct (getRepo_calls _ _ _ _ _ _ _ Hrepo) as (calls & Hj & Hsync).
    destruct (Sync_quiet _ _ _ _ _ _ _ Hsync) as (_ & Hr & _).
    match goal with
    | |- context [forOf ?files (wrapFile ?o ?lp) ?r] =>
        destruct (forOf_wrapFile o lp files r)
          as (loop & Hloop & Hfile & _)
    end.
    rewrite Hloop. cbn [journal]. rewrite Hj.
    eexists. split; [by rewrite <- !List.app_assoc|].
    left. by rewrite !reports_app, Hr, (fileCalls_reports _ _ _ Hfile).
Qed.

(** The calls of a run of [getRepo] are all the synchroniser's. *)
Lemma Sync_synchronising cachePath remote b w
    (out : Outcome (JsError Cause) SimpleGit) w' calls :
  Sync cachePath remote b w out w' calls →
  Forall (λ e, synchronising (call e) = true) calls.
Proof. destruct 1; by repeat constructor. Qed.

Lemma fileCalls_not_synchronising o localPath calls :
  Forall (fileCall o localPath) calls →
  Forall (λ e, synchronising (call e) = false) calls.
Proof.
  induction 1 as [|e loop He _ IH]; constructor; [|done].
  by destruct He as [[path He] | (node & He & _)]; rewrite He.
Qed.

(** After calls that went through, a failed call among calls that are
    not the synchroniser's ends a run that stops at its first failure. *)
Lemma failed_after_sync {A} (out : Outcome (JsError Cause) A) calls0 tail e cause :
  Forall (λ e, failure e = None) calls0 →
  Forall (λ e, synchronising (call e) = false) tail →
  failsLast out tail →
  e ∈ calls0 ++ tail →
  failure e = Some cause →
  synchronising (call e) = false ∧
  out = Rejected (Raised cause) ∧
  last (calls0 ++ tail) = Some e.
Proof.
  intros Hdone Hforeign Hstops He Hfail.
  destruct (failsLast_app out calls0 tail Hdone Hstops e cause He Hfail) as [-> Hlast].
  split; [|done].
  apply elem_of_app in He as [He | He].
  - rewrite Forall_forall in Hdone. specialize (Hdone e He). congruence.
  - rewrite Forall_forall in Hforeign. by apply Hforeign.
Qed.

(** X14. What [sourceNodes] does on a failed call depends on whose call
    it is. A failed call of the synchroniser (the existence check, the
    listing, the remote-URL query, the clone, the fetch, the reset) is
    followed by the report of its cause and nothing else, and the run
    fulfils. A failed call of any other kind ([rev-parse], the glob, the
    creation of a node or of a file node) is the last call of the run,
    which rejects with the cause of that call. *)
Theorem sourceNodes_stops_at_failure o w j :
  ∃ calls,
    journal (sourceNodes o (mkRun w j)).2 = j ++ calls ∧
    ∀ e cause, e ∈ calls → failure e = Some cause →
      if synchronising (call e)
      then (sourceNodes o (mkRun w j)).1 = Fulfilled tt ∧
           ∃ before,
             calls = before ++ [e; mkEvent (CallReporterError (describe cause)) None]
      else (sourceNodes o (mkRun w j)).1 = Rejected (Raised cause) ∧
           last calls = Some e.
Proof.
  destruct (sourceNodes_run o w j) as (out & r' & -> & Hs). cbn [fst snd].
  inversion Hs as [| ? e0 after Hp Hrepo | ? ? after ? ? Hp Hrepo
                   | ? ? after ? ? ? ? Hp Hrepo | ? ? after ? ? ? ? ? ? Hp Hrepo
                   | ? ? after ? ? ? ? ? Hp Hrepo];
    subst; cbn [journal].
  - exists []. split; [by rewrite app_nil_r|].
    intros e c He. by apply elem_of_nil in He.
  - destruct (getRepo_calls _ _ _ _ _ _ _ Hrepo) as (calls & -> & Hsync).
    destruct (Sync_failsLast _ _ _ _ _ _ _ Hsync) as [Hstops _].
    pose proof (Sync_synchronising _ _ _ _ _ _ _ Hsync) as Hours.
    eexists. split; [by rewrite <- List.app_assoc|].
    intros e c [He | He%list_elem_of_singleton]%elem_of_app Hfail;
      [|by subst].
    rewrite Forall_forall in Hours. rewrite (Hours e He).
    destruct (Hstops e c He Hfail) as [[= ->] Hlast]. split; [done|].
    apply last_Some in Hlast as [before ->]. exists before.
    by rewrite <- List.app_assoc.
  - destruct (getRepo_calls _ _ _ _ _ _ _ Hrepo) as (calls & -> & Hsync).
    destruct (Sync_failsLast _ _ _ _ _ _ _ Hsync) as [_ Hdone].
    eexists. split; [by rewrite <- List.app_assoc|].
    intros e c He Hfail.
    edestruct (failed_after_sync (A := unit)) as (-> & Hout & Hlast);
      [by eapply Hdone | | | exact He | exact Hfail | by split].
    + by repeat constructor.
    + intros e' c' ->%list_elem_of_singleton [= <-]. done.
  - destruct (getRepo_calls _ _ _ _ _ _ _ Hrepo) as (calls & -> & Hsync).
    destruct (Sync_failsLast _ _ _ _ _ _ _ Hsync) as [_ Hdone].
    eexists. split; [by rewrite <- List.app_assoc|].
    intros e c He Hfail.
    edestruct (failed_after_sync (A := unit)) as (-> & Hout & Hlast);
      [by eapply Hdone | | | exact He | exact Hfail | by split].
    + by repeat constructor.
    + apply (failsLast_app _ [_]); [by repeat constructor|].
      intros e' c' ->%list_elem_of_singleton [= <-]. done.
  - destruct (getRepo_calls _ _ _ _ _ _ _ Hrepo) as (calls & -> & Hsync).
    destruct (Sync_failsLast _ _ _ _ _ _ _ Hsync) as [_ Hdone].
    eexists. split; [by rewrite <- List.app_assoc|].
    intros e c He Hfail.
    edestruct (failed_after_sync (A := unit)) as (-> & Hout & Hlast);
      [by eapply Hdone | | | exact He | exact Hfail | by split].
    + by repeat constructor.
    + apply (failsLast_app _ [_; _]); [by repeat constructor|].
      intros e' c' ->%list_elem_of_singleton [= <-]. done.
  - destruct (getRepo_calls _ _ _ _ _ _ _ Hrepo) as (calls & Hj & Hsync).
    destruct (Sync_failsLast _ _ _ _ _ _ _ Hsync) as [_ Hdone].
    rewrite Hj.
    match goal with
    | |- context [forOf ?files (wrapFile ?o ?lp) ?r] =>
        destruct (forOf_wrapFile o lp files r)
          as (loop & Hloop & Hfile & _ & Hstops & _)
    end.
    rewrite Hloop. cbn [journal].
    eexists. split; [by rewrite <- !List.app_assoc|].
    intros e c He Hfail.
    edestruct (failed_after_sync (A := unit)) as (-> & Hout & Hlast);
      [by eapply Hdone | | | exact He | exact Hfail | by split].
    + apply (Forall_app_2 _ [_; _; _]); [by repeat constructor|].
      by eapply fileCalls_not_synchronising.
    + apply (failsLast_app _ [_; _; _]); [by repeat constructor | done].
Qed.

End SourceNodesMore.

(** ** The further statements, applied *)

Section MoreWitnesses.
Import Reference Samples.

Lemma getRepo_unreadable_path_witness :
  getRepo cache upstreamUrl None (mkRun blocked [])
    = (Rejected (Raised ENOTDIR),
       mkRun blocked ([] ++ [mkEvent (CallExistsSync cache) None;
                             mkEvent (CallReaddirSync cache) (Some ENOTDIR)])).
Proof.
  apply (getRepo_unreadable_path cache upstreamUrl None blocked [] ENOTDIR).
  - vm_compute. reflexivity.
  - vm_compute. reflexivity.
Defined.

Lemma getRepo_unanswered_remote_query_witness :
  getRepo cache upstreamUrl None (mkRun cluttered [])
    = (Rejected (Raised NotARepository),
       mkRun cluttered ([] ++ detection cache (Some NotARepository))) ∧
  mutations (journal (getRepo cache upstreamUrl None (mkRun cluttered [])).2)
    = mutations [].
Proof.
  apply (getRepo_unanswered_remote_query cache upstreamUrl None cluttered []
           [js "notes.txt"] NotARepository).
  - vm_compute. reflexivity.
  - vm_compute. reflexivity.
  - discriminate.
  - vm_compute. reflexivity.
Defined.

Lemma getRepo_resync_named_branch_witness :
  getRepo cache upstreamUrl (Some (js "main")) (mkRun stale [])
    = (thenValue (passOn (Fulfilled tt)) (git cache),
       mkRun (ref_reset (git cache) [js "--hard"; js "origin/" ++ js "main"]
                (ref_fetch (git cache) [js "--depth"; js "1"] stale).2).2
             ([] ++ detection cache None ++
              [mkEvent (CallFetch (git cache) [js "--depth"; js "1"]) None;
               mkEvent (CallReset (git cache) [js "--hard"; js "origin/" ++ js "main"])
                       (failureOf (Fulfilled tt))])).
Proof.
  apply (getRepo_resync_named_branch cache upstreamUrl (js "main") stale []
           [js ".git"; js "README.md"] (upstreamUrl ++ [LF])
           (ref_fetch (git cache) [js "--depth"; js "1"] stale).2
           (Fulfilled tt)
           (ref_reset (git cache) [js "--hard"; js "origin/" ++ js "main"]
              (ref_fetch (git cache) [js "--depth"; js "1"] stale).2).2).
  - vm_compute. reflexivity.
  - vm_compute. reflexivity.
  - discriminate.
  - vm_compute. reflexivity.
  - vm_compute. reflexivity.
  - vm_compute. reflexivity.
  - vm_compute. reflexivity.
Defined.

Lemma sourceNodes_unparsable_remote_witness :
  sourceNodes nameless (start bare) = (Rejected (Raised BadUrl), start bare).
Proof.
  apply (sourceNodes_unparsable_remote nameless (start bare) BadUrl).
  vm_compute. reflexivity.
Defined.

Lemma sourceNodes_rev_parse_failure_witness :
  @sourceNodes World Cause headless host docs (mkRun bare [])
    = (Rejected (Raised NotARepository),
       mkRun (world (@getRepo World Cause headless cache upstreamUrl None (mkRun bare [])).2)
             (journal (@getRepo World Cause headless cache upstreamUrl None
                         (mkRun bare [])).2 ++
              [mkEvent (CallRaw (git cache)
                          [js "rev-parse"; js "--abbrev-ref"; js "HEAD"])
                       (Some NotARepository)])) ∧
  creations (journal (@sourceNodes World Cause headless host docs (mkRun bare [])).2)
    = creations [] ∧
  reports (journal (@sourceNodes World Cause headless host docs (mkRun bare [])).2)
    = reports [].
Proof.
  apply (@sourceNodes_rev_parse_failure World Cause headless host docs bare []
           (<[js "href" := VStr upstreamUrl]> {[js "git_suffix" := VBool true]})).
  - vm_compute. reflexivity.
  - vm_compute. reflexivity.
  - vm_compute. reflexivity.
Defined.

Lemma sourceNodes_glob_failure_witness :
  @sourceNodes World Cause client globless docs (mkRun bare [])
    = (Rejected (Raised ENOENT),
       mkRun (world (getRepo cache upstreamUrl None (mkRun bare [])).2)
             (journal (getRepo cache upstreamUrl None (mkRun bare [])).2 ++
              [mkEvent (CallRaw (git cache)
                          [js "rev-parse"; js "--abbrev-ref"; js "HEAD"]) None;
               mkEvent (CallFastGlob (default (js "**") (patterns docs)) cache true)
                       (Some ENOENT)])) ∧
  creations (journal (@sourceNodes World Cause client globless docs (mkRun bare [])).2)
    = creations [] ∧
  reports (journal (@sourceNodes World Cause client globless docs (mkRun bare [])).2)
    = reports [].
Proof.
  apply (@sourceNodes_glob_failure World Cause client globless docs bare []
           (<[js "href" := VStr upstreamUrl]> {[js "git_suffix" := VBool true]})
           (git cache) (getRepo cache upstreamUrl None (mkRun bare [])).2
           (js "main" ++ [LF])
           (world (getRepo cache upstreamUrl None (mkRun bare [])).2)
           ENOENT
           (world (getRepo cache upstreamUrl None (mkRun bare [])).2)).
  - vm_compute. reflexivity.
  - vm_compute. reflexivity.
  - vm_compute. reflexivity.
  - vm_compute. reflexivity.
Defined.

Lemma sourceNodes_reports_conflict_text_witness :
  sourceNodes docs (mkRun foreign [])
    = (Fulfilled tt,
       mkRun (reporter_error
                (js "Error: Can't clone to target destination: " ++ cache) foreign)
             ([] ++ detection cache None ++
              [mkEvent (CallReporterError
                          (js "Error: Can't clone to target destination: " ++ cache))
                       None])).
Proof.
  change cache with (localPathOf (programDirectory foreign) docs).
  apply (sourceNodes_reports_conflict_text docs foreign []
           (<[js "href" := VStr upstreamUrl]> {[js "git_suffix" := VBool true]})
           [js ".git"; js "README.md"] (otherUrl ++ [LF])).
  - vm_compute. reflexivity.
  - vm_compute. reflexivity.
  - vm_compute. reflexivity.
  - discriminate.
  - vm_compute. reflexivity.
  - vm_compute. discriminate.
Defined.

Lemma sourceNodes_remote_node_content_witness :
  ∃ node,
    ownNodes (journal (sourceNodes docs (mkRun bare [])).2)
      = ownNodes ([] : list (Event Cause)) ++ [node] ∧
    node !! js "ref" = Some (VStr (trim (js "main" ++ [LF]))) ∧
    node !! js "git_suffix" = None ∧
    (∀ key value, key ≠ js "ref" → key ≠ js "git_suffix" →
       (<[js "href" := VStr upstreamUrl]> {[js "git_suffix" := VBool true]} : JsObject)
         !! key = Some value →
       node !! key = Some value) ∧
    ((<[js "href" := VStr upstreamUrl]> {[js "git_suffix" := VBool true]} : JsObject)
       !! js "id" = None →
     node !! js "id" = Some (VStr (createNodeId (js "git-remote-" ++ name docs)))) ∧
    ((<[js "href" := VStr upstreamUrl]> {[js "git_suffix" := VBool true]} : JsObject)
       !! js "sourceInstanceName" = None →
     node !! js "sourceInstanceName" = Some (VStr (name docs))) ∧
    ((<[js "href" := VStr upstreamUrl]> {[js "git_suffix" := VBool true]} : JsObject)
       !! js "internal" = None →
     node !! js "internal"
       = Some (VObj (<[js "type" := VStr (js "GitRemote")]>
                    (<[js "content" :=
                         VStr (JSON_stringify
                                 (described (<[js "href" := VStr upstreamUrl]>
                                             {[js "git_suffix" := VBool true]})
                                            (js "main" ++ [LF])))]>
                    {[js "contentDigest" :=
                        VStr (createContentDigest
                                (described (<[js "href" := VStr upstreamUrl]>
                                            {[js "git_suffix" := VBool true]})
                                           (js "main" ++ [LF])))]})))).
Proof.
  apply (sourceNodes_remote_node_content docs bare []
           (<[js "href" := VStr upstreamUrl]> {[js "git_suffix" := VBool true]})
           (git cache) (getRepo cache upstreamUrl None (mkRun bare [])).2
           (js "main" ++ [LF])
           (world (getRepo cache upstreamUrl None (mkRun bare [])).2)
           [cache ++ js "/" ++ js "README.md"]
           (world (getRepo cache upstreamUrl None (mkRun bare [])).2)).
  - vm_compute. reflexivity.
  - vm_compute. reflexivity.
  - vm_compute. reflexivity.
  - vm_compute. reflexivity.
Defined.

Lemma sourceNodes_every_file_sourced_witness :
  ∃ asked,
    requestedFiles (journal (sourceNodes docs (mkRun bare [])).2)
      = requestedFiles ([] : list (Event Cause)) ++ asked ∧
    asked `prefix_of` [cache ++ js "/" ++ js "README.md"] ∧
    ((sourceNodes docs (mkRun bare [])).1 = Fulfilled tt →
     asked = [cache ++ js "/" ++ js "README.md"] ∧
     length (wrappedNodes (journal (sourceNodes docs (mkRun bare [])).2))
       = (length (wrappedNodes ([] : list (Event Cause)))
          + length [cache ++ js "/" ++ js "README.md"])%nat).
Proof.
  apply (sourceNodes_every_file_sourced docs bare []
           (<[js "href" := VStr upstreamUrl]> {[js "git_suffix" := VBool true]})
           (git cache) (getRepo cache upstreamUrl None (mkRun bare [])).2
           (js "main" ++ [LF])
           (world (getRepo cache upstreamUrl None (mkRun bare [])).2)
           [cache ++ js "/" ++ js "README.md"]
           (world (getRepo cache upstreamUrl None (mkRun bare [])).2)).
  - vm_compute. reflexivity.
  - vm_compute. reflexivity.
  - vm_compute. reflexivity.
  - vm_compute. reflexivity.
Defined.

Lemma sourceNodes_synchronises_local_path_witness :
  (∃ rest,
     journal (sourceNodes (docsAt (js "/srv/docs")) (mkRun bare [])).2
       = [] ++ mkEvent (CallExistsSync
                          (localPathOf (programDirectory bare) (docsAt (js "/srv/docs"))))
                       None :: rest) ∧
  (∀ c s, local (docsAt (js "/srv/docs")) = Some (c :: s) →
     localPathOf (programDirectory bare) (docsAt (js "/srv/docs")) = c :: s) ∧
  (local (docsAt (js "/srv/docs")) = None ∨ local (docsAt (js "/srv/docs")) = Some [] →
   localPathOf (programDirectory bare) (docsAt (js "/srv/docs"))
     = path_join [programDirectory bare; js ".cache";
                  js "gatsby-source-git-as-filesystem"; name (docsAt (js "/srv/docs"))]).
Proof.
  apply (sourceNodes_synchronises_local_path (docsAt (js "/srv/docs")) bare []
           (<[js "href" := VStr upstreamUrl]> {[js "git_suffix" := VBool true]})).
  vm_compute. reflexivity.
Defined.

(** The whole run over [/srv/docs]: the checkout lands there. *)
Example sourceNodes_at_local :
  (sourceNodes (docsAt (js "/srv/docs")) (start bare)).1 = Fulfilled tt ∧
  requestedFiles (journal (sourceNodes (docsAt (js "/srv/docs")) (start bare)).2)
    = [js "/srv/docs/README.md"] ∧
  is_Some (disk (world (sourceNodes (docsAt (js "/srv/docs")) (start bare)).2)
             !! js "/srv/docs") ∧
  disk (world (sourceNodes (docsAt (js "/srv/docs")) (start bare)).2) !! cache = None.
Proof. vm_compute. repeat split; by eauto. Qed.

(** A host that cannot make file nodes: the remote node is created, the
    first file is asked for, and the run rejects there. *)
Example sourceNodes_without_file_nodes :
  (@sourceNodes World Cause client nodeless docs (start bare)).1
    = Rejected (Raised ENOENT) ∧
  length (created (world (@sourceNodes World Cause client nodeless docs (start bare)).2))
    = 1%nat ∧
  requestedFiles (journal (@sourceNodes World Cause client nodeless docs (start bare)).2)
    = [cache ++ js "/" ++ js "README.md"] ∧
  wrappedNodes (journal (@sourceNodes World Cause client nodeless docs (start bare)).2)
    = [].
Proof. by vm_compute. Qed.

End MoreWitnesses.

(** ** A clone that went through and a remote that does not match *)

Section RewrittenRemote.
Import Reference Samples.


End RewrittenRemote.
